(** * FireNet/a.py: comment stripper and directory driver

    A shallow embedding of [remove_csharp_comments] and [process_directory]
    together with the part of Python's [re] engine the pattern relies on. *)

From Stdlib Require Import Ascii String List Bool Arith Lia.
Import ListNotations.

Set Implicit Arguments.

(** ** Text

    A Python [str] is a sequence of characters, here [ascii] ones; the
    pattern tells three of them from all others: the slash, the star and
    the line feed. *)

Definition text := list ascii.

Definition txt (s : string) : text := list_ascii_of_string s.

Definition LF : ascii := "010"%char.
Definition slash : ascii := "/"%char.
Definition star : ascii := "*"%char.

(** ** The fragment of [re] used by the pattern

    The flags are fixed to [re.MULTILINE | re.DOTALL], as in the source:
    [Dot] accepts every character, the line feed included, and [Eol] (the
    dollar) holds at the end of the text and in front of every line feed. *)

Module Re.

Inductive regex : Type :=
| Chr (c : ascii)
| Dot
| Eol
| Cat (r1 r2 : regex)
| Alt (r1 r2 : regex)
| Lazy (r : regex)
| Grp (r : regex).

(** Backtracking matcher in continuation-passing style.  [rmatch r s k]
    matches [r] at the front of [s] and hands what is left to [k]; a [None]
    from [k] makes the matcher try its next choice.  Alternatives are tried
    left to right and a lazy star first tries to stop.  No construct of the
    fragment looks to the left of the position it is tried at, so the text
    from that position on is all the matcher is given. *)
Fixpoint rmatch (A : Type) (r : regex) (s : text) (k : text -> option A)
  : option A :=
  match r with
  | Chr c =>
      match s with
      | x :: s' => if Ascii.eqb x c then k s' else None
      | [] => None
      end
  | Dot =>
      match s with
      | _ :: s' => k s'
      | [] => None
      end
  | Eol =>
      match s with
      | [] => k s
      | x :: _ => if Ascii.eqb x LF then k s else None
      end
  | Cat r1 r2 => rmatch r1 s (fun s1 => rmatch r2 s1 k)
  | Alt r1 r2 =>
      match rmatch r1 s k with
      | Some a => Some a
      | None => rmatch r2 s k
      end
  | Grp r1 => rmatch r1 s k
  | Lazy r1 =>
      (fix more (n : nat) (s0 : text) : option A :=
         match k s0 with
         | Some a => Some a
         | None =>
             match n with
             | 0 => None
             | S n' =>
                 rmatch r1 s0
                   (fun s1 => if length s1 <? length s0 then more n' s1
                              else None)
             end
         end) (length s) s
  end.

(** [match_at adv r s]: the text left after the match of [r] that starts at
    the front of [s].  With [adv] set an empty match is refused (the
    engine's must-advance rule after an empty match). *)
Definition match_at (adv : bool) (r : regex) (s : text) : option text :=
  rmatch r s
    (fun rest => if adv && (length rest =? length s) then None else Some rest).

(** [search adv r s]: leftmost match in [s], as (text before the match,
    matched text, text after the match). *)
Fixpoint search (adv : bool) (r : regex) (s : text)
  : option (text * text * text) :=
  match match_at adv r s with
  | Some rest => Some ([], firstn (length s - length rest) s, rest)
  | None =>
      match s with
      | [] => None
      | c :: s' =>
          match search false r s' with
          | Some (pre, m, rest) => Some (c :: pre, m, rest)
          | None => None
          end
      end
  end.

(** The pieces [sub] collects before joining them: slices of the subject
    that no match covers and the matches themselves. *)
Inductive piece : Type :=
| Lit (t : text)
| Hit (m : text).

Fixpoint sub_loop (fuel : nat) (adv : bool) (r : regex) (s : text)
  : list piece :=
  match fuel with
  | 0 => [Lit s]
  | S fuel' =>
      match search adv r s with
      | None => [Lit s]
      | Some (pre, m, rest) =>
          Lit pre :: Hit m ::
            sub_loop fuel' (length m =? 0) r rest
      end
  end.

(** Every round of the loop consumes a character or sets the must-advance
    flag, so twice the length of the subject (plus two) rounds suffice. *)
Definition pieces (r : regex) (s : text) : list piece :=
  sub_loop (2 * length s + 2) false r s.

Definition join (repl : text -> text) (ps : list piece) : text :=
  concat (map (fun p => match p with Lit t => t | Hit m => repl m end) ps).

(** [pattern.sub(repl, string)] *)
Definition sub (r : regex) (repl : text -> text) (s : text) : text :=
  join repl (pieces r s).

End Re.

Import Re.

(** ** remove_csharp_comments *)

(** [//.*?$] *)
Definition single_line_comment_pattern : regex :=
  Cat (Chr slash) (Cat (Chr slash) (Cat (Lazy Dot) Eol)).

(** [/\*.*?\*/] *)
Definition multi_line_comment_pattern : regex :=
  Cat (Chr slash) (Cat (Chr star)
    (Cat (Lazy Dot) (Cat (Chr star) (Chr slash)))).

Definition pattern : regex :=
  Alt (Grp single_line_comment_pattern) (Grp multi_line_comment_pattern).

Definition replacer (_ : text) : text := [].

Definition remove_csharp_comments (code : text) : text :=
  sub pattern replacer code.

(** ** What the pattern does, written directly

    These functions are not in the source: they describe the two ways the
    pattern can match and are proved equal to the matcher below. *)

(** Rest of the text from the first line feed on (empty when there is
    none): where [//.*?$] stops. *)
Fixpoint line_end (t : text) : text :=
  match t with
  | [] => []
  | c :: t' => if Ascii.eqb c LF then t else line_end t'
  end.

(** Rest of the text after the first star-slash, if there is one: where
    [/\*.*?\*/] stops. *)
Fixpoint block_end (t : text) : option text :=
  match t with
  | [] => None
  | c :: t' =>
      match t' with
      | d :: t'' =>
          if Ascii.eqb c star && Ascii.eqb d slash then Some t''
          else block_end t'
      | [] => None
      end
  end.

Definition comment_at (s : text) : option text :=
  match s with
  | c :: d :: t =>
      if Ascii.eqb c slash then
        if Ascii.eqb d slash then Some (line_end t)
        else if Ascii.eqb d star then block_end t
        else None
      else None
  | _ => None
  end.

(** A lazy [.*?] in front of a continuation: the first suffix the
    continuation accepts. *)
Fixpoint first_stop (A : Type) (k : text -> option A) (s : text) : option A :=
  match k s with
  | Some a => Some a
  | None =>
      match s with
      | [] => None
      | _ :: s' => first_stop k s'
      end
  end.

(** [has_pair a b s]: the two characters [a b] occur next to each other
    somewhere in [s]. *)
Fixpoint has_pair (a b : ascii) (s : text) : bool :=
  match s with
  | c :: t =>
      match t with
      | d :: _ => (Ascii.eqb c a && Ascii.eqb d b) || has_pair a b t
      | [] => false
      end
  | [] => false
  end.

Definition is_line_comment (m : text) : bool :=
  match m with
  | c :: d :: _ => Ascii.eqb c slash && Ascii.eqb d slash
  | _ => false
  end.

Definition is_block_comment (m : text) : bool :=
  match m with
  | c :: d :: _ => Ascii.eqb c slash && Ascii.eqb d star
  | _ => false
  end.

(** All the text of a list of pieces, matches included. *)
Definition text_of (ps : list piece) : text := join (fun m => m) ps.

(** The text of the matches that are not line comments. *)
Definition block_text (ps : list piece) : text :=
  concat (map (fun p => match p with
                        | Hit m => if is_line_comment m then [] else m
                        | Lit _ => []
                        end) ps).

(** The lines of a text, cut at the line feeds. *)
Fixpoint lines (s : text) : list text :=
  match s with
  | [] => [[]]
  | c :: t =>
      if Ascii.eqb c LF then [] :: lines t
      else match lines t with
           | l :: ls => (c :: l) :: ls
           | [] => [[c]]
           end
  end.

Definition is_prefix (a b : text) : Prop := exists r, b = a ++ r.

Definition count_lf (s : text) : nat := count_occ ascii_dec s LF.

(** A renaming of characters that turns the double quote into an
    apostrophe and keeps every other character. *)
Definition unquote (c : ascii) : ascii :=
  if Ascii.eqb c "034"%char then "039"%char else c.

(** ** process_directory

    Paths are lists of components from the file-system root; [root_dir] is
    taken absolute, so that [os.path.abspath] leaves it as it is.  Symbolic
    links are not modelled. *)

Definition path := list string.

(** [os.path.join] of a path and a relative one. *)
Definition join_path (p rel : path) : path := p ++ rel.

(** [os.path.dirname] *)
Definition dirname (p : path) : path := removelast p.

Fixpoint common_prefix (p q : path) : nat :=
  match p, q with
  | a :: p', b :: q' => if String.eqb a b then S (common_prefix p' q') else 0
  | _, _ => 0
  end.

(** [os.path.relpath(p, start)]: one [..] for each component of [start]
    that is not shared, then what is left of [p]. *)
Definition relpath (p start : path) : path :=
  let i := common_prefix start p in
  repeat ".."%string (length start - i) ++ skipn i p.

(** [s.endswith(suffix)] *)
Definition endswith (s suffix : string) : bool :=
  let n := String.length s in
  let k := String.length suffix in
  (k <=? n) && String.eqb (substring (n - k) k s) suffix.

(** Exceptions the file operations raise; all of them derive from
    [Exception]. *)
Inductive exn : Type :=
| FileNotFoundError
| FileExistsError
| NotADirectoryError
| IsADirectoryError
| PermissionError
| UnicodeDecodeError.

(** The lines the driver prints. *)
Inductive line : Type :=
| Directory_not_found (root_dir : path)
| Failed_to_read (full_path : path) (e : exn)
| Failed_to_write (p : path) (e : exn)
| Processed (full_path : path)
| Total_found (file_count : nat)
| Comments_removed (processed_count : nat).

(** What a run does to its surroundings, in order. *)
Inductive event : Type :=
| EvScan (top : path) (r : option (list string * list string))
| EvRead (p : path) (r : exn + text)
| EvMakedirs (p : path) (r : option exn)
| EvWrite (p : path) (t : text) (r : option exn)
| EvPrint (l : line).

(** The operations of [os] and [open] the driver calls, over a state of the
    world [W].  [os_scandir] is the listing [os.walk] takes of a directory,
    as (sub-directories, other files), and [None] when the listing fails;
    [os_read] is [open(p, 'r', encoding='utf-8')] followed by [read];
    [os_write] is [open(p, 'w', encoding='utf-8')] followed by [write];
    [os_makedirs] is [os.makedirs(p, exist_ok=True)]. *)
Class OS (W : Type) : Type := {
  os_isdir : W -> path -> bool;
  os_scandir : W -> path -> option (list string * list string);
  os_read : W -> path -> exn + text;
  os_makedirs : W -> path -> W * option exn;
  os_write : W -> path -> text -> W * option exn
}.

Inductive outcome (A : Type) : Type :=
| Done (a : A)
| Raised (e : exn)
| Out_of_fuel.

Arguments Raised {A} e.
Arguments Out_of_fuel {A}.

Section Driver.

Context {W : Type} {os : OS W}.

(** A statement: from a world to how it ends, the world it leaves and the
    events it caused. *)
Definition M (A : Type) : Type := W -> outcome A * W * list event.

Definition ret (A : Type) (a : A) : M A := fun w => (Done a, w, []).

Definition bind (A B : Type) (m : M A) (f : A -> M B) : M B :=
  fun w =>
    let '(r, w1, t1) := m w in
    match r with
    | Done a => let '(r2, w2, t2) := f a w1 in (r2, w2, t1 ++ t2)
    | Raised e => (Raised e, w1, t1)
    | Out_of_fuel => (Out_of_fuel, w1, t1)
    end.

(** [try: m  except Exception as e: h e] *)
Definition try_except (A : Type) (m : M A) (h : exn -> M A) : M A :=
  fun w =>
    let '(r, w1, t1) := m w in
    match r with
    | Raised e => let '(r2, w2, t2) := h e w1 in (r2, w2, t1 ++ t2)
    | _ => (r, w1, t1)
    end.

(** [print(...)]: the event is the call.  Standard output is taken to
    accept every line, so the call returns; a console that cannot encode a
    path would make it raise, which is outside this model.  Nothing below
    concludes from the model that no exception leaves a run. *)
Definition print (l : line) : M unit := fun w => (Done tt, w, [EvPrint l]).

Definition isdir (p : path) : M bool := fun w => (Done (os_isdir w p), w, []).

Definition scandir (top : path) : M (option (list string * list string)) :=
  fun w => let r := os_scandir w top in (Done r, w, [EvScan top r]).

Definition read_file (p : path) : M text :=
  fun w =>
    match os_read w p with
    | inr content => (Done content, w, [EvRead p (inr content)])
    | inl e => (Raised e, w, [EvRead p (inl e)])
    end.

Definition write_file (p : path) (t : text) : M unit :=
  fun w =>
    let '(w1, r) := os_write w p t in
    (match r with None => Done tt | Some e => Raised e end,
     w1, [EvWrite p t r]).

Definition makedirs (p : path) : M unit :=
  fun w =>
    let '(w1, r) := os_makedirs w p in
    (match r with None => Done tt | Some e => Raised e end,
     w1, [EvMakedirs p r]).

Local Notation "x <- m ;; k" := (bind m (fun x => k))
  (at level 61, m at next level, right associativity).
Local Notation "m ;; k" := (bind m (fun _ => k))
  (at level 61, right associativity).

(** The two counters of a run: [file_count] and [processed_count]. *)
Definition counters : Type := nat * nat.

(** The body of the inner loop for one [filename] of [subdir].  The
    handler of the read ends the iteration ([continue]), which is the
    [None] below. *)
Definition process_file (root_dir : path) (output_dir : option path)
    (subdir : path) (filename : string) (cnt : counters) : M counters :=
  let '(file_count, processed_count) := cnt in
  if endswith filename ".cs" then
    let file_count := file_count + 1 in
    let full_path := join_path subdir [filename] in
    r <- try_except
           (content <- read_file full_path ;; ret (Some content))
           (fun e => print (Failed_to_read full_path e) ;; ret None) ;;
    match r with
    | None => ret (file_count, processed_count)
    | Some content =>
        let cleaned := remove_csharp_comments content in
        processed_count <-
          (if list_eq_dec ascii_dec cleaned content then ret processed_count
           else
             let processed_count := processed_count + 1 in
             match output_dir with
             | Some output_dir =>
                 let rel_path := relpath full_path root_dir in
                 let out_path := join_path output_dir rel_path in
                 makedirs (dirname out_path) ;;
                 try_except (write_file out_path cleaned)
                   (fun e => print (Failed_to_write out_path e))
             | None =>
                 try_except (write_file full_path cleaned)
                   (fun e => print (Failed_to_write full_path e))
             end ;;
             ret processed_count) ;;
        print (Processed full_path) ;;
        ret (file_count, processed_count)
    end
  else ret cnt.

(** [for filename in files: ...] *)
Fixpoint process_files (root_dir : path) (output_dir : option path)
    (subdir : path) (files : list string) (cnt : counters) : M counters :=
  match files with
  | [] => ret cnt
  | filename :: files' =>
      cnt <- process_file root_dir output_dir subdir filename cnt ;;
      process_files root_dir output_dir subdir files' cnt
  end.

(** [for subdir, _, files in os.walk(root_dir): ...].  [os.walk] keeps the
    directories it still has to list on a stack; it lists the one on top,
    hands it to the loop body, and only then pushes its sub-directories.  A
    directory whose listing fails is passed over.  [fuel] bounds the number
    of directories listed. *)
Fixpoint walk (fuel : nat) (root_dir : path) (output_dir : option path)
    (stack : list path) (cnt : counters) : M counters :=
  match stack with
  | [] => ret cnt
  | top :: stack' =>
      match fuel with
      | 0 => fun w => (Out_of_fuel, w, [])
      | S fuel' =>
          r <- scandir top ;;
          match r with
          | None => walk fuel' root_dir output_dir stack' cnt
          | Some (dirs, files) =>
              cnt <- process_files root_dir output_dir top files cnt ;;
              walk fuel' root_dir output_dir
                (map (fun d => join_path top [d]) dirs ++ stack') cnt
          end
      end
  end.

Definition process_directory (fuel : nat) (root_dir : path)
    (output_dir : option path) : M unit :=
  ok <- isdir root_dir ;;
  if negb ok then print (Directory_not_found root_dir)
  else
    cnt <- walk fuel root_dir output_dir [root_dir] (0, 0) ;;
    print (Total_found (fst cnt)) ;;
    print (Comments_removed (snd cnt)).

(** The body of the script, once the arguments are parsed: [directory] is
    [args.directory] and [output] is [args.output], where [None] also
    stands for an empty string. *)
Definition main (fuel : nat) (directory : path) (output : option path)
  : M unit :=
  match output with
  | Some output => makedirs output
  | None => ret tt
  end ;;
  process_directory fuel directory output.

(** Where a changed file goes: back to its own path, or to the mirrored
    path under the output directory. *)
Definition target (root_dir : path) (output_dir : option path)
    (full_path : path) : path :=
  match output_dir with
  | Some output_dir => join_path output_dir (relpath full_path root_dir)
  | None => full_path
  end.

Definition write_report (p : path) (r : option exn) : list event :=
  match r with
  | Some e => [EvPrint (Failed_to_write p e)]
  | None => []
  end.

(** The ways one iteration of the inner loop can go; [process_file_step]
    below shows that [process_file] always takes one of them. *)
Inductive file_step (root_dir : path) (output_dir : option path)
    (subdir : path) (filename : string) (cnt : counters) (w : W)
  : outcome counters * W * list event -> Prop :=
| step_other :
    endswith filename ".cs" = false ->
    file_step root_dir output_dir subdir filename cnt w (Done cnt, w, [])
| step_unreadable e :
    endswith filename ".cs" = true ->
    os_read w (join_path subdir [filename]) = inl e ->
    file_step root_dir output_dir subdir filename cnt w
      (Done (fst cnt + 1, snd cnt), w,
       [EvRead (join_path subdir [filename]) (inl e);
        EvPrint (Failed_to_read (join_path subdir [filename]) e)])
| step_unchanged content :
    endswith filename ".cs" = true ->
    os_read w (join_path subdir [filename]) = inr content ->
    remove_csharp_comments content = content ->
    file_step root_dir output_dir subdir filename cnt w
      (Done (fst cnt + 1, snd cnt), w,
       [EvRead (join_path subdir [filename]) (inr content);
        EvPrint (Processed (join_path subdir [filename]))])
| step_blocked content output_dir' w1 e :
    endswith filename ".cs" = true ->
    os_read w (join_path subdir [filename]) = inr content ->
    remove_csharp_comments content <> content ->
    output_dir = Some output_dir' ->
    os_makedirs w
      (dirname (target root_dir output_dir (join_path subdir [filename])))
      = (w1, Some e) ->
    file_step root_dir output_dir subdir filename cnt w
      (Raised e, w1,
       [EvRead (join_path subdir [filename]) (inr content);
        EvMakedirs
          (dirname (target root_dir output_dir (join_path subdir [filename])))
          (Some e)])
| step_mirrored content output_dir' w1 w2 r :
    endswith filename ".cs" = true ->
    os_read w (join_path subdir [filename]) = inr content ->
    remove_csharp_comments content <> content ->
    output_dir = Some output_dir' ->
    os_makedirs w
      (dirname (target root_dir output_dir (join_path subdir [filename])))
      = (w1, None) ->
    os_write w1 (target root_dir output_dir (join_path subdir [filename]))
      (remove_csharp_comments content) = (w2, r) ->
    file_step root_dir output_dir subdir filename cnt w
      (Done (fst cnt + 1, snd cnt + 1), w2,
       EvRead (join_path subdir [filename]) (inr content) ::
       EvMakedirs
         (dirname (target root_dir output_dir (join_path subdir [filename])))
         None ::
       EvWrite (target root_dir output_dir (join_path subdir [filename]))
         (remove_csharp_comments content) r ::
       write_report
         (target root_dir output_dir (join_path subdir [filename])) r ++
       [EvPrint (Processed (join_path subdir [filename]))])
| step_in_place content w1 r :
    endswith filename ".cs" = true ->
    os_read w (join_path subdir [filename]) = inr content ->
    remove_csharp_comments content <> content ->
    output_dir = None ->
    os_write w (join_path subdir [filename])
      (remove_csharp_comments content) = (w1, r) ->
    file_step root_dir output_dir subdir filename cnt w
      (Done (fst cnt + 1, snd cnt + 1), w1,
       EvRead (join_path subdir [filename]) (inr content) ::
       EvWrite (join_path subdir [filename])
         (remove_csharp_comments content) r ::
       write_report (join_path subdir [filename]) r ++
       [EvPrint (Processed (join_path subdir [filename]))]).

End Driver.

(** ** Reading a trace *)

Definition walked_files (tr : list event) : list string :=
  flat_map (fun e => match e with
                     | EvScan _ (Some (_, files)) => files
                     | _ => []
                     end) tr.

Definition count_cs (files : list string) : nat :=
  length (filter (fun f => endswith f ".cs") files).

Definition count_events (f : event -> bool) (tr : list event) : nat :=
  length (filter f tr).

Definition is_scan (e : event) : bool :=
  match e with EvScan _ _ => true | _ => false end.

Definition is_read (e : event) : bool :=
  match e with EvRead _ _ => true | _ => false end.

Definition is_failed_read (e : event) : bool :=
  match e with EvRead _ (inl _) => true | _ => false end.

Definition is_processed (e : event) : bool :=
  match e with EvPrint (Processed _) => true | _ => false end.

(** A read whose text the stripper changes. *)
Definition is_changed_read (e : event) : bool :=
  match e with
  | EvRead _ (inr content) =>
      if list_eq_dec ascii_dec (remove_csharp_comments content) content
      then false else true
  | _ => false
  end.

(** A write or the creation of a directory, attempted or done. *)
Definition is_output (e : event) : bool :=
  match e with
  | EvWrite _ _ _ | EvMakedirs _ _ => true
  | _ => false
  end.

Definition is_summary (e : event) : bool :=
  match e with
  | EvPrint (Total_found _) | EvPrint (Comments_removed _) => true
  | _ => false
  end.

(** What holds of every part of a run that starts with the counters [cnt]
    in the world [w]: nothing of the summary is printed, an exception of a
    file operation leaves it only from a failed [makedirs], the world is
    left alone unless a changed text was read, and on completion the
    counters have grown by the reads and by the changed reads of the
    part. *)
Definition sound (W : Type) (output_dir : option path) (cnt : counters)
    (w : W) (res : outcome counters * W * list event) : Prop :=
  let '(r, w', tr) := res in
  count_events is_summary tr = 0 /\
  (forall e, r = Raised e ->
     output_dir <> None /\
     exists tr0 d, tr = tr0 ++ [EvMakedirs d (Some e)]) /\
  (count_events is_changed_read tr = 0 ->
   w' = w /\ count_events is_output tr = 0) /\
  (forall cnt', r = Done cnt' ->
     fst cnt' = fst cnt + count_events is_read tr /\
     snd cnt' = snd cnt + count_events is_changed_read tr /\
     count_events is_read tr =
     count_events is_processed tr + count_events is_failed_read tr).

(** Where an event of a run on [root_dir] may come from, given the whole
    trace [tr] of the run: listings and reads stay under [root_dir], reads
    are of [.cs] names, a write carries the stripped text of a file read in
    the same run to that file's target, and directories are created only
    under an output directory. *)
Definition from_tree (root_dir : path) (output_dir : option path)
    (tr : list event) (e : event) : Prop :=
  match e with
  | EvScan top _ => exists sub, top = root_dir ++ sub
  | EvRead p _ =>
      exists sub f, p = root_dir ++ sub ++ [f] /\ endswith f ".cs" = true
  | EvWrite q t _ =>
      exists sub f content,
        In (EvRead (root_dir ++ sub ++ [f]) (inr content)) tr /\
        t = remove_csharp_comments content /\ t <> content /\
        q = match output_dir with
            | Some o => o ++ sub ++ [f]
            | None => root_dir ++ sub ++ [f]
            end
  | EvMakedirs d _ => exists o sub, output_dir = Some o /\ d = o ++ sub
  | EvPrint _ => True
  end.

Definition tree_trace (root_dir : path) (output_dir : option path)
    (tr : list event) : Prop :=
  forall e, In e tr -> from_tree root_dir output_dir tr e.

(** Every read and every write that raised is followed at once by the
    print of its error line. *)
Fixpoint failures_reported (tr : list event) : Prop :=
  match tr with
  | [] => True
  | e :: tr' =>
      match e with
      | EvRead p (inl x) =>
          exists l, tr' = EvPrint (Failed_to_read p x) :: l
      | EvWrite p _ (Some x) =>
          exists l, tr' = EvPrint (Failed_to_write p x) :: l
      | _ => True
      end /\ failures_reported tr'
  end.

(** Every write of [tr] goes to a path from which a text was read before
    it, in [tr] or among the events [seen] so far. *)
Fixpoint written_after_read (seen tr : list event) : Prop :=
  match tr with
  | [] => True
  | e :: tr' =>
      match e with
      | EvWrite q _ _ => exists content, In (EvRead q (inr content)) seen
      | _ => True
      end /\ written_after_read (e :: seen) tr'
  end.

(** ** A small file system

    An instance of [OS] to run the driver on: a file system as a list of
    paths with what is stored there.  A file carries what reading it gives
    and whether it may be written. *)

Module Fs.

Inductive node : Type :=
| File (content : exn + text) (writable : bool)
| Dir.

Definition t := list (path * node).

Definition path_eqb (p q : path) : bool :=
  if list_eq_dec string_dec p q then true else false.

Fixpoint lookup (fs : t) (p : path) : option node :=
  match fs with
  | [] => None
  | (q, n) :: fs' => if path_eqb q p then Some n else lookup fs' p
  end.

Fixpoint update (fs : t) (p : path) (n : node) : t :=
  match fs with
  | [] => [(p, n)]
  | (q, m) :: fs' =>
      if path_eqb q p then (q, n) :: fs' else (q, m) :: update fs' p n
  end.

Definition is_dir (fs : t) (p : path) : bool :=
  match p with
  | [] => true
  | _ => match lookup fs p with Some Dir => true | _ => false end
  end.

Definition children (fs : t) (top : path) : list (string * node) :=
  flat_map (fun '(q, n) =>
              match q with
              | [] => []
              | _ => if path_eqb (removelast q) top
                     then [(last q EmptyString, n)] else []
              end) fs.

Definition list_dir (fs : t) (top : path)
  : option (list string * list string) :=
  if is_dir fs top then
    let cs := children fs top in
    Some (map fst (filter (fun c => match snd c with Dir => true
                                    | _ => false end) cs),
          map fst (filter (fun c => match snd c with Dir => false
                                    | _ => true end) cs))
  else None.

Definition read (fs : t) (p : path) : exn + text :=
  match lookup fs p with
  | Some (File content _) => content
  | Some Dir => inl IsADirectoryError
  | None => inl FileNotFoundError
  end.

Definition write (fs : t) (p : path) (content : text) : t * option exn :=
  match lookup fs p with
  | Some (File _ true) => (update fs p (File (inr content) true), None)
  | Some (File _ false) => (fs, Some PermissionError)
  | Some Dir => (fs, Some IsADirectoryError)
  | None =>
      if is_dir fs (removelast p)
      then (update fs p (File (inr content) true), None)
      else (fs, Some FileNotFoundError)
  end.

(** The prefixes of a path, shortest first. *)
Fixpoint prefixes (p : path) : list path :=
  match p with
  | [] => []
  | a :: p' => [a] :: map (cons a) (prefixes p')
  end.

Fixpoint make_all (fs : t) (ps : list path) : t * option exn :=
  match ps with
  | [] => (fs, None)
  | d :: ps' =>
      match lookup fs d with
      | Some Dir => make_all fs ps'
      | Some (File _ _) =>
          (fs, Some (match ps' with
                     | [] => FileExistsError
                     | _ => NotADirectoryError
                     end))
      | None => make_all (update fs d Dir) ps'
      end
  end.

Definition make_dirs (fs : t) (p : path) : t * option exn :=
  make_all fs (prefixes p).

End Fs.

#[export] Instance fs_os : OS Fs.t := {
  os_isdir := Fs.is_dir;
  os_scandir := Fs.list_dir;
  os_read := Fs.read;
  os_makedirs := Fs.make_dirs;
  os_write := Fs.write
}.

(** A tree to run on: [/R/a.cs] has a comment, [/R/b.cs] has none,
    [/R/c.cs] cannot be read, [/R/d.cs] has a comment and cannot be
    written, [/R/notes.txt] is not a source file, [/R/sub/F.cs] and
    [/R/z/G.cs] have comments.  [/O] is an empty directory. *)
Definition sample_fs : Fs.t :=
  [ (["R"], Fs.Dir);
    (["R"; "a.cs"], Fs.File (inr (txt "a(); // note")) true);
    (["R"; "b.cs"], Fs.File (inr (txt "b();")) true);
    (["R"; "c.cs"], Fs.File (inl PermissionError) true);
    (["R"; "d.cs"], Fs.File (inr (txt "d(); /* x */")) false);
    (["R"; "notes.txt"], Fs.File (inr (txt "// not a source file")) true);
    (["R"; "sub"], Fs.Dir);
    (["R"; "sub"; "F.cs"], Fs.File (inr (txt "/* f */f();")) true);
    (["R"; "z"], Fs.Dir);
    (["R"; "z"; "G.cs"], Fs.File (inr (txt "g(); // g")) true);
    (["O"], Fs.Dir) ]%string.

(** The same tree with a regular file in the way at [/O/sub]. *)
Definition blocked_fs : Fs.t :=
  sample_fs ++ [ (["O"; "sub"], Fs.File (inr (txt "in the way")) true) ]%string.

(** The tree again, with a read-only file where the mirror of [/R/d.cs]
    goes. *)
Definition locked_fs : Fs.t :=
  sample_fs ++
  [ (["O"; "d.cs"], Fs.File (inr (txt "old")) false) ]%string.

Definition reads_path (p : path) (e : event) : bool :=
  match e with
  | EvRead q _ => Fs.path_eqb q p
  | _ => false
  end.

(** A tree in which no source file has a comment. *)
Definition clean_fs : Fs.t :=
  [ (["R"], Fs.Dir);
    (["R"; "b.cs"], Fs.File (inr (txt "b();")) true);
    (["R"; "sub"], Fs.Dir);
    (["R"; "sub"; "H.cs"], Fs.File (inr (txt "h(1 / 2);")) true);
    (["O"], Fs.Dir) ]%string.

(** ** The matcher on the pattern *)

Lemma rmatch_lazy_dot (A : Type) (k : text -> option A) (s : text) :
  rmatch (Lazy Dot) s k = first_stop k s.
Proof.
  simpl rmatch.
  generalize (Nat.le_refl (length s)).
  generalize (length s) at 2 3 as n.
  intros n; revert s.
  induction n as [|n IH]; intros s Hn.
  - destruct s as [|c s]; simpl in *; [|lia].
    destruct (k []); reflexivity.
  - destruct s as [|c s]; simpl in *.
    + destruct (k []); reflexivity.
    + destruct (k (c :: s)); [reflexivity|].
      replace (length s <? S (length s)) with true
        by (symmetry; apply Nat.ltb_lt; lia).
      apply IH; lia.
Qed.

Lemma rmatch_single_line (A : Type) (k : text -> option A) (s : text) :
  rmatch single_line_comment_pattern s k =
  match s with
  | c :: d :: t =>
      if Ascii.eqb c slash then
        if Ascii.eqb d slash then first_stop (fun s1 => rmatch Eol s1 k) t
        else None
      else None
  | _ => None
  end.
Proof.
  destruct s as [|c [|d t]]; [reflexivity| |].
  - simpl. destruct (Ascii.eqb c slash); reflexivity.
  - rewrite <- rmatch_lazy_dot. reflexivity.
Qed.

Lemma rmatch_multi_line (A : Type) (k : text -> option A) (s : text) :
  rmatch multi_line_comment_pattern s k =
  match s with
  | c :: d :: t =>
      if Ascii.eqb c slash then
        if Ascii.eqb d star then
          first_stop (fun s1 => rmatch (Cat (Chr star) (Chr slash)) s1 k) t
        else None
      else None
  | _ => None
  end.
Proof.
  destruct s as [|c [|d t]]; [reflexivity| |].
  - simpl. destruct (Ascii.eqb c slash); reflexivity.
  - rewrite <- rmatch_lazy_dot. reflexivity.
Qed.

Lemma line_end_length (t : text) : length (line_end t) <= length t.
Proof.
  induction t as [|c t IH]; simpl; [lia|].
  destruct (Ascii.eqb c LF); simpl; lia.
Qed.

Lemma block_end_length (t r : text) :
  block_end t = Some r -> length r < length t.
Proof.
  revert r. induction t as [|c t IH]; intros r; simpl; [discriminate|].
  destruct t as [|d t']; [discriminate|].
  destruct (Ascii.eqb c star && Ascii.eqb d slash).
  - intros [= <-]. simpl. lia.
  - intros H. apply IH in H. simpl in *. lia.
Qed.

Lemma first_stop_eol (k : text -> option text) (t : text) :
  (forall r, length r <= length t -> k r = Some r) ->
  first_stop (fun s1 => rmatch Eol s1 k) t = Some (line_end t).
Proof.
  induction t as [|c t IH]; intros Hk.
  - simpl. rewrite Hk by (simpl; lia). reflexivity.
  - simpl. destruct (Ascii.eqb c LF).
    + rewrite Hk by lia. reflexivity.
    + apply IH. intros r Hr. apply Hk. simpl; lia.
Qed.

Lemma first_stop_close (k : text -> option text) (t : text) :
  (forall r, length r <= length t -> k r = Some r) ->
  first_stop (fun s1 => rmatch (Cat (Chr star) (Chr slash)) s1 k) t =
  block_end t.
Proof.
  induction t as [|c t IH]; intros Hk; [reflexivity|].
  cbn [first_stop rmatch block_end].
  destruct t as [|d t'].
  - destruct (Ascii.eqb c star); reflexivity.
  - destruct (Ascii.eqb c star); cbn [andb].
    + destruct (Ascii.eqb d slash).
      * rewrite Hk by (simpl; lia). reflexivity.
      * apply IH. intros r Hr. apply Hk. simpl in *; lia.
    + apply IH. intros r Hr. apply Hk. simpl in *; lia.
Qed.

(** The matcher run on the pattern is [comment_at], whatever the
    must-advance flag: a comment is never empty. *)
Lemma match_at_pattern (adv : bool) (s : text) :
  match_at adv pattern s = comment_at s.
Proof.
  unfold match_at, pattern.
  cbn [rmatch].
  rewrite rmatch_single_line, rmatch_multi_line.
  destruct s as [|c [|d t]]; [reflexivity|reflexivity|].
  cbn [comment_at].
  assert (Hk : forall r : text, length r <= length t ->
            (if adv && (length r =? length (c :: d :: t)) then None
             else Some r) = Some r).
  { intros r Hr. replace (length r =? length (c :: d :: t)) with false.
    - rewrite andb_false_r. reflexivity.
    - symmetry. apply Nat.eqb_neq. simpl. lia. }
  destruct (Ascii.eqb c slash); [|reflexivity].
  destruct (Ascii.eqb d slash) eqn:Hd.
  - rewrite first_stop_eol by exact Hk. reflexivity.
  - destruct (Ascii.eqb d star); [|reflexivity].
    apply first_stop_close. exact Hk.
Qed.

(** ** Where the two kinds of comment stop *)

Lemma line_end_split (t : text) :
  exists body, t = body ++ line_end t /\ ~ In LF body.
Proof.
  induction t as [|c t (body & Ht & Hb)]; simpl.
  - exists []. split; [reflexivity|intros []].
  - destruct (Ascii.eqb c LF) eqn:Hc.
    + exists []. split; [reflexivity|intros []].
    + exists (c :: body). split.
      * simpl. f_equal. exact Ht.
      * intros [->|H]; [|exact (Hb H)].
        rewrite Ascii.eqb_refl in Hc. discriminate.
Qed.

Lemma line_end_head (t : text) :
  line_end t = [] \/ exists r, line_end t = LF :: r.
Proof.
  induction t as [|c t IH]; simpl; [left; reflexivity|].
  destruct (Ascii.eqb c LF) eqn:Hc; [|exact IH].
  apply Ascii.eqb_eq in Hc. subst c. right. exists t. reflexivity.
Qed.

Lemma line_end_app (body r : text) :
  ~ In LF body -> line_end (body ++ LF :: r) = LF :: r.
Proof.
  induction body as [|c body IH]; intros Hb; simpl.
  - reflexivity.
  - destruct (Ascii.eqb c LF) eqn:Hc.
    + apply Ascii.eqb_eq in Hc. subst c. exfalso. apply Hb. left; reflexivity.
    + apply IH. intros H. apply Hb. right; exact H.
Qed.

Lemma line_end_none (body : text) : ~ In LF body -> line_end body = [].
Proof.
  induction body as [|c body IH]; intros Hb; simpl; [reflexivity|].
  destruct (Ascii.eqb c LF) eqn:Hc.
  - apply Ascii.eqb_eq in Hc. subst c. exfalso. apply Hb. left; reflexivity.
  - apply IH. intros H. apply Hb. right; exact H.
Qed.

Lemma has_pair_cons (a b c d : ascii) (t : text) :
  has_pair a b (c :: d :: t) =
  (Ascii.eqb c a && Ascii.eqb d b) || has_pair a b (d :: t).
Proof. reflexivity. Qed.

Lemma block_end_cons (c d : ascii) (t : text) :
  block_end (c :: d :: t) =
  if Ascii.eqb c star && Ascii.eqb d slash then Some t
  else block_end (d :: t).
Proof. reflexivity. Qed.

Lemma block_end_none (t : text) :
  block_end t = None <-> has_pair star slash t = false.
Proof.
  induction t as [|c t IH]; [simpl; tauto|].
  destruct t as [|d t]; [simpl; tauto|].
  rewrite block_end_cons, has_pair_cons.
  destruct (Ascii.eqb c star && Ascii.eqb d slash); simpl.
  - split; discriminate.
  - exact IH.
Qed.

Lemma block_end_split (t r : text) :
  block_end t = Some r ->
  exists body, t = body ++ star :: slash :: r /\
               has_pair star slash body = false.
Proof.
  revert r. induction t as [|c t IH]; intros r; [discriminate|].
  destruct t as [|d t]; [discriminate|].
  rewrite block_end_cons.
  destruct (Ascii.eqb c star && Ascii.eqb d slash) eqn:Hcd.
  - intros [= <-]. apply andb_prop in Hcd as [Hc Hd].
    apply Ascii.eqb_eq in Hc, Hd. subst. exists []. split; reflexivity.
  - intros H. destruct (IH _ H) as (body & Ht & Hb).
    exists (c :: body). split.
    + simpl. f_equal. exact Ht.
    + destruct body as [|e body]; [reflexivity|].
      simpl in Ht. injection Ht as -> _.
      rewrite has_pair_cons, Hcd. exact Hb.
Qed.

Lemma block_end_app (body r : text) :
  has_pair star slash body = false ->
  block_end (body ++ star :: slash :: r) = Some r.
Proof.
  induction body as [|c body IH]; intros Hb.
  - reflexivity.
  - destruct body as [|d body].
    + simpl app. rewrite block_end_cons.
      destruct (Ascii.eqb c star && Ascii.eqb star slash) eqn:E.
      * apply andb_prop in E as [_ E]. discriminate.
      * reflexivity.
    + rewrite has_pair_cons in Hb. apply orb_false_elim in Hb as [Hcd Hb].
      change ((c :: d :: body) ++ star :: slash :: r)
        with (c :: d :: (body ++ star :: slash :: r)).
      rewrite block_end_cons, Hcd. apply IH. exact Hb.
Qed.

Lemma comment_at_cases (s r : text) :
  comment_at s = Some r ->
  (exists body, s = slash :: slash :: body ++ r /\ ~ In LF body /\
                r = line_end (body ++ r)) \/
  (exists body, s = slash :: star :: body ++ star :: slash :: r /\
                has_pair star slash body = false).
Proof.
  destruct s as [|c [|d t]]; try discriminate.
  cbn [comment_at].
  destruct (Ascii.eqb c slash) eqn:Hc; [|discriminate].
  apply Ascii.eqb_eq in Hc. subst c.
  destruct (Ascii.eqb d slash) eqn:Hd.
  - apply Ascii.eqb_eq in Hd. subst d. intros [= <-]. left.
    destruct (line_end_split t) as (body & Ht & Hb).
    exists body. rewrite <- Ht. auto.
  - destruct (Ascii.eqb d star) eqn:Hs; [|discriminate].
    apply Ascii.eqb_eq in Hs. subst d. intros H. right.
    destruct (block_end_split _ H) as (body & Ht & Hb).
    exists body. rewrite <- Ht. auto.
Qed.

Lemma comment_at_suffix (s r : text) :
  comment_at s = Some r ->
  exists m, s = m ++ r /\ 2 <= length m /\
            (is_line_comment m = true /\ ~ In LF m \/
             is_block_comment m = true /\ is_line_comment m = false).
Proof.
  intros H. destruct (comment_at_cases _ H) as [(body & -> & Hb & _)|(body & -> & Hb)].
  - exists (slash :: slash :: body). split; [reflexivity|].
    split; [simpl; lia|]. left. split; [reflexivity|].
    intros [E|[E|E]]; try discriminate. exact (Hb E).
  - exists (slash :: star :: body ++ [star; slash]). split.
    + simpl. rewrite <- app_assoc. reflexivity.
    + split; [simpl; lia|]. right. split; reflexivity.
Qed.

Lemma firstn_prefix (m r : text) :
  firstn (length (m ++ r) - length r) (m ++ r) = m.
Proof.
  rewrite length_app.
  replace (length m + length r - length r) with (length m + 0) by lia.
  rewrite firstn_app_2. simpl. apply app_nil_r.
Qed.

(** ** The search loop on the pattern *)

Lemma comment_at_length (s r : text) :
  comment_at s = Some r -> length r + 2 <= length s.
Proof.
  intros H. destruct (comment_at_suffix _ H) as (m & -> & Hm & _).
  rewrite length_app. lia.
Qed.

Lemma search_pattern_adv (adv : bool) (s : text) :
  search adv pattern s = search false pattern s.
Proof. destruct s; cbn [search]; rewrite !match_at_pattern; reflexivity. Qed.

Lemma search_nil : search false pattern [] = None.
Proof. reflexivity. Qed.

Lemma search_cons (c : ascii) (t : text) :
  search false pattern (c :: t) =
  match comment_at (c :: t) with
  | Some rest =>
      Some ([], firstn (length (c :: t) - length rest) (c :: t), rest)
  | None =>
      match search false pattern t with
      | Some (pre, m, rest) => Some (c :: pre, m, rest)
      | None => None
      end
  end.
Proof. cbn [search]. rewrite match_at_pattern. reflexivity. Qed.

Lemma search_spec (s pre m rest : text) :
  search false pattern s = Some (pre, m, rest) ->
  s = pre ++ m ++ rest /\ comment_at (m ++ rest) = Some rest.
Proof.
  revert pre. induction s as [|c t IH]; intros pre; [discriminate|].
  rewrite search_cons.
  destruct (comment_at (c :: t)) as [r|] eqn:Hc.
  - destruct (comment_at_suffix _ Hc) as (m0 & Hs & _).
    rewrite Hs, firstn_prefix. intros [= <- <- <-].
    rewrite <- Hs. auto.
  - destruct (search false pattern t) as [[[p m'] r]|]; [|discriminate].
    intros [= <- <- <-]. destruct (IH _ eq_refl) as [-> Hm]. auto.
Qed.

Lemma search_length (s pre m rest : text) :
  search false pattern s = Some (pre, m, rest) -> length rest + 2 <= length s.
Proof.
  intros H. apply search_spec in H as [-> H].
  apply comment_at_length in H. rewrite !length_app in *. lia.
Qed.

Lemma sub_loop_fuel (f1 f2 : nat) (a1 a2 : bool) (s : text) :
  length s < f1 -> length s < f2 ->
  sub_loop f1 a1 pattern s = sub_loop f2 a2 pattern s.
Proof.
  revert f2 a1 a2 s. induction f1 as [|f1 IH]; intros f2 a1 a2 s H1 H2; [lia|].
  destruct f2 as [|f2]; [lia|].
  cbn [sub_loop]. rewrite (search_pattern_adv a1), (search_pattern_adv a2).
  destruct (search false pattern s) as [[[pre m] rest]|] eqn:Hs; [|reflexivity].
  apply search_length in Hs.
  do 2 f_equal. apply IH; lia.
Qed.

Lemma pieces_unfold (s : text) :
  pieces pattern s =
  match search false pattern s with
  | None => [Lit s]
  | Some (pre, m, rest) => Lit pre :: Hit m :: pieces pattern rest
  end.
Proof.
  unfold pieces at 1.
  replace (2 * length s + 2) with (S (2 * length s + 1)) by lia.
  cbn [sub_loop].
  destruct (search false pattern s) as [[[pre m] rest]|] eqn:Hs; [|reflexivity].
  apply search_length in Hs.
  do 2 f_equal. apply sub_loop_fuel; lia.
Qed.

Lemma join_cons_lit (repl : text -> text) (t : text) (ps : list piece) :
  join repl (Lit t :: ps) = t ++ join repl ps.
Proof. reflexivity. Qed.

Lemma join_cons_hit (repl : text -> text) (m : text) (ps : list piece) :
  join repl (Hit m :: ps) = repl m ++ join repl ps.
Proof. reflexivity. Qed.

Lemma join_app (repl : text -> text) (ps qs : list piece) :
  join repl (ps ++ qs) = join repl ps ++ join repl qs.
Proof. unfold join. rewrite map_app, concat_app. reflexivity. Qed.

Lemma strip_search (s : text) :
  remove_csharp_comments s =
  match search false pattern s with
  | None => s
  | Some (pre, _, rest) => pre ++ remove_csharp_comments rest
  end.
Proof.
  unfold remove_csharp_comments, sub. rewrite pieces_unfold.
  destruct (search false pattern s) as [[[pre m] rest]|].
  - reflexivity.
  - unfold join. simpl. apply app_nil_r.
Qed.

(** The scanner, one character at a time. *)
Lemma strip_nil : remove_csharp_comments [] = [].
Proof. reflexivity. Qed.

Lemma strip_cons (c : ascii) (t : text) :
  remove_csharp_comments (c :: t) =
  match comment_at (c :: t) with
  | Some rest => remove_csharp_comments rest
  | None => c :: remove_csharp_comments t
  end.
Proof.
  rewrite strip_search, search_cons.
  destruct (comment_at (c :: t)) as [r|]; [reflexivity|].
  rewrite (strip_search t).
  destruct (search false pattern t) as [[[pre m] rest]|]; reflexivity.
Qed.

(** Induction along the scan. *)
Lemma scan_ind (P : text -> Prop) :
  P [] ->
  (forall c t r, comment_at (c :: t) = Some r -> P r -> P (c :: t)) ->
  (forall c t, comment_at (c :: t) = None -> P t -> P (c :: t)) ->
  forall s, P s.
Proof.
  intros Hnil Hhit Hmiss s.
  assert (H : forall n (u : text), length u <= n -> P u).
  { induction n as [|n IH]; intros u Hu.
    - destruct u; [exact Hnil|simpl in Hu; lia].
    - destruct u as [|c t]; [exact Hnil|].
      destruct (comment_at (c :: t)) as [r|] eqn:Hc.
      + apply (Hhit _ _ _ Hc). apply IH.
        apply comment_at_length in Hc. simpl in *. lia.
      + apply (Hmiss _ _ Hc). apply IH. simpl in Hu. lia. }
  apply (H (length s)). lia.
Qed.

(** ** Facts used by several claims *)

Lemma comment_at_head (c : ascii) (t r : text) :
  comment_at (c :: t) = Some r -> c = slash.
Proof.
  destruct t as [|d t]; [discriminate|]. cbn [comment_at].
  destruct (Ascii.eqb c slash) eqn:Hc; [|discriminate].
  intros _. apply Ascii.eqb_eq. exact Hc.
Qed.

Lemma comment_at_not_slash (c : ascii) (t : text) :
  c <> slash -> comment_at (c :: t) = None.
Proof.
  intros Hc. destruct (comment_at (c :: t)) eqn:E; [|reflexivity].
  apply comment_at_head in E. contradiction.
Qed.

Lemma strip_head_slash (s r : text) :
  remove_csharp_comments s = slash :: r -> exists t, s = slash :: t.
Proof.
  destruct s as [|c t]; [discriminate|].
  rewrite strip_cons. destruct (comment_at (c :: t)) eqn:E.
  - apply comment_at_head in E. subst c. eauto.
  - intros [= -> _]. eauto.
Qed.

Lemma has_pair_tail (a b c : ascii) (t : text) :
  has_pair a b (c :: t) = false -> has_pair a b t = false.
Proof.
  destruct t as [|d t]; [reflexivity|].
  rewrite has_pair_cons. intros H. apply orb_false_elim in H. tauto.
Qed.

Lemma has_pair_suffix (a b : ascii) (m r : text) :
  has_pair a b (m ++ r) = false -> has_pair a b r = false.
Proof.
  induction m as [|c m IH]; intros H; [exact H|].
  apply IH. exact (has_pair_tail _ _ _ _ H).
Qed.

(** Stripping cannot bring a star and a slash together. *)
Lemma strip_no_close (s : text) :
  has_pair star slash s = false ->
  has_pair star slash (remove_csharp_comments s) = false.
Proof.
  induction s as [|c t r Hc IH|c t Hc IH] using scan_ind; intros H.
  - reflexivity.
  - rewrite strip_cons, Hc. apply IH.
    destruct (comment_at_suffix _ Hc) as (m & Hs & _).
    rewrite Hs in H. exact (has_pair_suffix _ _ _ _ H).
  - rewrite strip_cons, Hc.
    specialize (IH (has_pair_tail _ _ _ _ H)).
    destruct (remove_csharp_comments t) as [|d r] eqn:Ht; [reflexivity|].
    rewrite has_pair_cons, IH, orb_false_r.
    destruct (Ascii.eqb c star && Ascii.eqb d slash) eqn:E; [|reflexivity].
    apply andb_prop in E as [Ec Ed]. apply Ascii.eqb_eq in Ec, Ed. subst c d.
    destruct (strip_head_slash _ Ht) as (t' & ->).
    rewrite has_pair_cons in H. discriminate.
Qed.

(** An opener that finds no closer stays, and the scan goes on behind its
    first character. *)
Lemma strip_open_block (t : text) :
  has_pair star slash t = false ->
  remove_csharp_comments (slash :: star :: t) =
  slash :: star :: remove_csharp_comments t.
Proof.
  intros H. rewrite strip_cons. cbn [comment_at].
  rewrite Ascii.eqb_refl.
  change (Ascii.eqb star slash) with false. rewrite Ascii.eqb_refl.
  apply block_end_none in H. rewrite H.
  rewrite strip_cons, comment_at_not_slash by discriminate. reflexivity.
Qed.

Lemma strip_keep (pre s : text) :
  ~ In slash pre ->
  remove_csharp_comments (pre ++ s) = pre ++ remove_csharp_comments s.
Proof.
  induction pre as [|c pre IH]; intros H; [reflexivity|].
  simpl app. rewrite strip_cons, comment_at_not_slash.
  - f_equal. apply IH. intros Hin. apply H. right; exact Hin.
  - intros ->. apply H. left; reflexivity.
Qed.

Lemma strip_line (body r : text) :
  ~ In LF body ->
  remove_csharp_comments (slash :: slash :: body ++ LF :: r) =
  LF :: remove_csharp_comments r.
Proof.
  intros H. rewrite strip_cons. cbn [comment_at].
  rewrite Ascii.eqb_refl, line_end_app by exact H.
  rewrite strip_cons, comment_at_not_slash by discriminate. reflexivity.
Qed.

Lemma strip_line_eof (body : text) :
  ~ In LF body -> remove_csharp_comments (slash :: slash :: body) = [].
Proof.
  intros H. rewrite strip_cons. cbn [comment_at].
  rewrite Ascii.eqb_refl, line_end_none by exact H. reflexivity.
Qed.

Lemma strip_block (body r : text) :
  has_pair star slash body = false ->
  remove_csharp_comments (slash :: star :: body ++ star :: slash :: r) =
  remove_csharp_comments r.
Proof.
  intros H. rewrite strip_cons. cbn [comment_at].
  rewrite Ascii.eqb_refl.
  change (Ascii.eqb star slash) with false. rewrite Ascii.eqb_refl.
  rewrite block_end_app by exact H. reflexivity.
Qed.

(** ** The pieces of a text *)

Lemma pieces_ind (P : text -> list piece -> Prop) :
  (forall s, search false pattern s = None -> P s [Lit s]) ->
  (forall s pre m rest,
      search false pattern s = Some (pre, m, rest) ->
      P rest (pieces pattern rest) ->
      P s (Lit pre :: Hit m :: pieces pattern rest)) ->
  forall s, P s (pieces pattern s).
Proof.
  intros Hend Hhit s.
  assert (H : forall n (u : text), length u <= n -> P u (pieces pattern u)).
  { induction n as [|n IH]; intros u Hu; rewrite pieces_unfold;
      destruct (search false pattern u) as [[[pre m] rest]|] eqn:Hs;
      try (apply Hend; exact Hs).
    - apply search_length in Hs. lia.
    - apply (Hhit _ _ _ _ Hs). apply IH. apply search_length in Hs. lia. }
  apply (H (length s)). lia.
Qed.

Lemma text_of_pieces (s : text) : text_of (pieces pattern s) = s.
Proof.
  revert s. apply (pieces_ind (fun s ps => text_of ps = s)).
  - intros s Hs. unfold text_of, join. simpl. apply app_nil_r.
  - intros s pre m rest Hs IH.
    unfold text_of in *. rewrite join_cons_lit, join_cons_hit, IH.
    apply search_spec in Hs as [-> _]. reflexivity.
Qed.

Lemma hit_line (m rest : text) :
  comment_at (m ++ rest) = Some rest -> is_line_comment m = true ->
  ~ In LF m /\ (rest = [] \/ exists r, rest = LF :: r).
Proof.
  intros Hc Hm.
  destruct (comment_at_cases _ Hc) as [(body & E & Hb & Hr)|(body & E & _)].
  - change (slash :: slash :: body ++ rest)
      with ((slash :: slash :: body) ++ rest) in E.
    apply app_inv_tail in E. subst m. split.
    + intros [E|[E|E]]; try discriminate. exact (Hb E).
    + rewrite Hr. apply line_end_head.
  - destruct m as [|c [|d m']]; try discriminate Hm.
    cbn [is_line_comment] in Hm. apply andb_prop in Hm as [_ Hd].
    apply Ascii.eqb_eq in Hd. subst d.
    simpl in E. injection E as _ E _. discriminate E.
Qed.

Lemma hit_is_comment (m rest : text) :
  comment_at (m ++ rest) = Some rest ->
  is_line_comment m = true \/ is_block_comment m = true.
Proof.
  intros Hc. destruct (comment_at_suffix _ Hc) as (m' & E & _ & Hk).
  apply app_inv_tail in E. subst m'. tauto.
Qed.

Lemma strip_lf (r : text) :
  remove_csharp_comments (LF :: r) = LF :: remove_csharp_comments r.
Proof. rewrite strip_cons, comment_at_not_slash by discriminate. reflexivity. Qed.

Lemma count_lf_app (a b : text) : count_lf (a ++ b) = count_lf a + count_lf b.
Proof. apply count_occ_app. Qed.

Lemma count_lf_none (m : text) : ~ In LF m -> count_lf m = 0.
Proof. intros H. apply count_occ_not_In. exact H. Qed.

Lemma lines_nonempty (s : text) : lines s <> [].
Proof.
  induction s as [|c t IH]; simpl; [discriminate|].
  destruct (Ascii.eqb c LF); [discriminate|].
  destruct (lines t); [contradiction|discriminate].
Qed.

Lemma lines_line_comment (body r : text) :
  ~ In LF body -> exists l, lines (body ++ LF :: r) = l :: lines r.
Proof.
  induction body as [|c body IH]; intros Hb.
  - exists []. reflexivity.
  - destruct IH as (l & E); [intros H; apply Hb; right; exact H|].
    simpl. destruct (Ascii.eqb c LF) eqn:Hc.
    + apply Ascii.eqb_eq in Hc. subst c. exfalso. apply Hb. left; reflexivity.
    + rewrite E. exists (c :: l). reflexivity.
Qed.

Lemma lines_no_lf (body : text) : ~ In LF body -> lines body = [body].
Proof.
  induction body as [|c body IH]; intros Hb; [reflexivity|].
  simpl. destruct (Ascii.eqb c LF) eqn:Hc.
  - apply Ascii.eqb_eq in Hc. subst c. exfalso. apply Hb. left; reflexivity.
  - rewrite IH; [reflexivity|]. intros H. apply Hb. right; exact H.
Qed.

Lemma has_pair_here (a b : ascii) (x y : text) :
  has_pair a b (x ++ a :: b :: y) = true.
Proof.
  induction x as [|c x IH].
  - simpl. rewrite !Ascii.eqb_refl. reflexivity.
  - destruct x as [|d x].
    + simpl app in *. rewrite has_pair_cons, IH. apply orb_true_r.
    + change ((c :: d :: x) ++ a :: b :: y)
        with (c :: d :: (x ++ a :: b :: y)).
      rewrite has_pair_cons. change (d :: x ++ a :: b :: y)
        with ((d :: x) ++ a :: b :: y). rewrite IH. apply orb_true_r.
Qed.

Lemma comment_at_none (s : text) :
  has_pair slash slash s = false ->
  has_pair star slash s = false ->
  comment_at s = None.
Proof.
  intros Hl Hb. destruct (comment_at s) as [r|] eqn:Hc; [|reflexivity].
  exfalso.
  destruct (comment_at_cases _ Hc) as [(body & -> & _)|(body & -> & _)].
  - pose proof (has_pair_here slash slash [] (body ++ r)) as H.
    simpl app in H. rewrite H in Hl. discriminate.
  - pose proof (has_pair_here star slash (slash :: star :: body) r) as H.
    simpl app in H. rewrite H in Hb. discriminate.
Qed.

(** A text with no line-comment marker and no closer is left as it is. *)
Lemma strip_fixed (s : text) :
  has_pair slash slash s = false ->
  has_pair star slash s = false ->
  remove_csharp_comments s = s.
Proof.
  induction s as [|c t IH]; intros Hl Hb; [reflexivity|].
  rewrite strip_cons, comment_at_none by assumption.
  f_equal. apply IH; eapply has_pair_tail; eassumption.
Qed.

Lemma line_piece (s : text) (xs : list piece) (m : text) (ys : list piece) :
  pieces pattern s = xs ++ Hit m :: ys ->
  is_line_comment m = true ->
  s = text_of xs ++ m ++ text_of ys /\
  ~ In LF m /\
  (text_of ys = [] /\ remove_csharp_comments s = join replacer xs \/
   exists r, text_of ys = LF :: r /\
             remove_csharp_comments s =
             join replacer xs ++ LF :: remove_csharp_comments r).
Proof.
  revert s xs.
  refine (pieces_ind
    (fun s ps => forall xs, ps = xs ++ Hit m :: ys -> _ -> _ /\ _ /\ _) _ _).
  - intros s _ xs E. destruct xs as [|x [|y xs]]; discriminate.
  - intros s pre m0 rest Hs IH xs E Hm.
    pose proof (strip_search s) as Hstrip. rewrite Hs in Hstrip.
    apply search_spec in Hs as [Hsplit Hc].
    destruct xs as [|x [|y xs]]; try discriminate.
    + injection E as <- <- <-.
      destruct (@hit_line _ _ Hc Hm) as [Hlf Hrest].
      rewrite text_of_pieces.
      unfold text_of at 1. rewrite join_cons_lit.
      change (join (fun m1 : text => m1) []) with (@nil ascii).
      rewrite app_nil_r. split; [exact Hsplit|]. split; [exact Hlf|].
      rewrite join_cons_lit. change (join replacer []) with (@nil ascii).
      rewrite app_nil_r.
      destruct Hrest as [->|(r & ->)].
      * left. split; [reflexivity|]. rewrite Hstrip, strip_nil.
        apply app_nil_r.
      * right. exists r. split; [reflexivity|].
        rewrite Hstrip, strip_lf. reflexivity.
    + injection E as <- <- E.
      destruct (IH _ E Hm) as (Hr & Hlf & Hout).
      unfold text_of at 1. rewrite join_cons_lit, join_cons_hit.
      fold (text_of xs). split.
      * rewrite Hsplit, Hr at 1. rewrite <- !app_assoc. reflexivity.
      * split; [exact Hlf|].
        rewrite join_cons_lit, join_cons_hit. unfold replacer at 1 3.
        cbn [app]. rewrite Hstrip.
        destruct Hout as [(E1 & E2)|(r & E1 & E2)].
        -- left. split; [exact E1|]. rewrite E2. reflexivity.
        -- right. exists r. split; [exact E1|]. rewrite E2.
           rewrite <- app_assoc. reflexivity.
Qed.

Lemma line_breaks_kept (s : text) :
  count_lf s =
  count_lf (remove_csharp_comments s) + count_lf (block_text (pieces pattern s)).
Proof.
  unfold remove_csharp_comments, sub. revert s.
  apply (pieces_ind (fun s ps =>
    count_lf s = count_lf (join replacer ps) + count_lf (block_text ps))).
  - intros s _. unfold join, block_text. simpl. rewrite app_nil_r.
    change (count_lf []) with 0. lia.
  - intros s pre m rest Hs IH.
    apply search_spec in Hs as [-> Hc].
    rewrite join_cons_lit, join_cons_hit. unfold replacer at 1. cbn [app].
    unfold block_text in *. cbn [map concat]. cbn [app].
    rewrite !count_lf_app, IH.
    destruct (is_line_comment m) eqn:Hm.
    + destruct (@hit_line _ _ Hc Hm) as [Hlf _].
      rewrite (@count_lf_none m Hlf). change (count_lf []) with 0. lia.
    + lia.
Qed.

Lemma is_prefix_nil (a : text) : is_prefix [] a.
Proof. exists a. reflexivity. Qed.

Lemma is_prefix_cons (c : ascii) (a b : text) :
  is_prefix a b -> is_prefix (c :: a) (c :: b).
Proof. intros (r & ->). exists r. reflexivity. Qed.

Lemma lines_kept (s : text) :
  has_pair star slash s = false ->
  Forall2 is_prefix (lines (remove_csharp_comments s)) (lines s).
Proof.
  induction s as [|c t r Hc IH|c t Hc IH] using scan_ind; intros Hb.
  - constructor; [apply is_prefix_nil|constructor].
  - rewrite strip_cons, Hc.
    destruct (comment_at_cases _ Hc) as [(body & E & Hlf & Hr)|(body & E & _)].
    2:{ rewrite E in Hb.
        pose proof (has_pair_here star slash (slash :: star :: body) r) as H.
        simpl app in H. rewrite H in Hb. discriminate. }
    assert (Hm : ~ In LF (slash :: slash :: body)).
    { intros [H|[H|H]]; try discriminate. exact (Hlf H). }
    assert (Hbr : has_pair star slash r = false).
    { rewrite E in Hb.
      change (slash :: slash :: body ++ r)
        with ((slash :: slash :: body) ++ r) in Hb.
      exact (has_pair_suffix _ _ _ _ Hb). }
    specialize (IH Hbr).
    destruct (line_end_head (body ++ r)) as [Hnil|(r' & Hcons)];
      rewrite <- Hr in *.
    + subst r. rewrite E, app_nil_r, (@lines_no_lf _ Hm).
      constructor; [apply is_prefix_nil|constructor].
    + subst r. rewrite E.
      change (slash :: slash :: body ++ LF :: r')
        with ((slash :: slash :: body) ++ LF :: r').
      destruct (@lines_line_comment _ r' Hm) as (l & ->).
      rewrite strip_lf in *. cbn [lines] in IH.
      change (Ascii.eqb LF LF) with true in IH. cbn [lines].
      change (Ascii.eqb LF LF) with true. cbv iota in *.
      inversion IH; subst.
      constructor; [apply is_prefix_nil|assumption].
  - rewrite strip_cons, Hc.
    specialize (IH (has_pair_tail _ _ _ _ Hb)).
    cbn [lines]. destruct (Ascii.eqb c LF).
    + constructor; [apply is_prefix_nil|exact IH].
    + destruct IH as [|l1 l2 ls1 ls2 Hp Hrest].
      * constructor; [|constructor]. exists []. reflexivity.
      * constructor; [apply is_prefix_cons; exact Hp|exact Hrest].
Qed.

Lemma hit_block (m rest : text) :
  comment_at (m ++ rest) = Some rest -> is_block_comment m = true ->
  exists body, m = slash :: star :: body ++ [star; slash] /\
               has_pair star slash body = false.
Proof.
  intros Hc Hm.
  destruct (comment_at_cases _ Hc) as [(body & E & _)|(body & E & Hb)].
  - destruct m as [|c [|d m']]; try discriminate Hm.
    cbn [is_block_comment] in Hm. apply andb_prop in Hm as [_ Hd].
    apply Ascii.eqb_eq in Hd. subst d.
    simpl in E. injection E as _ E _. discriminate E.
  - exists body. split; [|exact Hb].
    replace (slash :: star :: body ++ star :: slash :: rest)
      with ((slash :: star :: body ++ [star; slash]) ++ rest) in E
      by (simpl; rewrite <- app_assoc; reflexivity).
    apply app_inv_tail in E. exact E.
Qed.

Lemma block_piece (s m : text) :
  In (Hit m) (pieces pattern s) ->
  is_block_comment m = true ->
  exists body, m = slash :: star :: body ++ [star; slash] /\
               has_pair star slash body = false.
Proof.
  revert s.
  apply (pieces_ind (fun s ps => In (Hit m) ps -> _ -> _)).
  - intros s _ [H|[]]. discriminate.
  - intros s pre m0 rest Hs IH [H|[H|H]] Hm.
    + discriminate.
    + injection H as ->. apply search_spec in Hs as [_ Hc].
      exact (@hit_block _ _ Hc Hm).
    + exact (IH H Hm).
Qed.

Lemma piece_is_comment (s m : text) :
  In (Hit m) (pieces pattern s) ->
  is_line_comment m = true \/ is_block_comment m = true.
Proof.
  revert s. apply (pieces_ind (fun s ps => In (Hit m) ps -> _)).
  - intros s _ [H|[]]. discriminate.
  - intros s pre m0 rest Hs IH [H|[H|H]].
    + discriminate.
    + injection H as ->. apply search_spec in Hs as [_ Hc].
      exact (@hit_is_comment _ _ Hc).
    + exact (IH H).
Qed.

Lemma piece_split (s : text) (xs : list piece) (m : text) (ys : list piece) :
  pieces pattern s = xs ++ Hit m :: ys ->
  s = text_of xs ++ m ++ text_of ys.
Proof.
  intros E. rewrite <- (text_of_pieces s) at 1. rewrite E.
  unfold text_of. rewrite join_app, join_cons_hit. reflexivity.
Qed.

(** No match begins at an opener that has no closer behind it, wherever
    the opener stands. *)
Lemma no_match_at_open (pre t : text) (xs : list piece) (m : text)
    (ys : list piece) :
  has_pair star slash t = false ->
  pieces pattern (pre ++ slash :: star :: t) = xs ++ Hit m :: ys ->
  text_of xs <> pre.
Proof.
  intros Ht E Hpre.
  assert (Hin : In (Hit m) (pieces pattern (pre ++ slash :: star :: t))).
  { rewrite E. apply in_or_app. right. left. reflexivity. }
  apply piece_split in E. rewrite Hpre in E. apply app_inv_head in E.
  assert (Hb : is_block_comment m = true).
  { destruct (piece_is_comment _ _ Hin) as [Hl|Hb]; [|exact Hb].
    destruct m as [|c [|d m']]; try discriminate Hl.
    cbn [is_line_comment] in Hl. apply andb_prop in Hl as [_ Hd].
    apply Ascii.eqb_eq in Hd. subst d.
    simpl in E. injection E as _ E _. discriminate E. }
  destruct (block_piece _ _ Hin Hb) as (body & -> & _).
  simpl in E. injection E as E. rewrite <- app_assoc in E. simpl in E.
  rewrite E in Ht.
  rewrite has_pair_here in Ht. discriminate.
Qed.

(** ** The claims about the stripper *)

(** C2. The stripper is idempotent: stripping a text twice gives the same
    result as stripping it once. *)
Theorem strip_idempotent (t : text) :
  remove_csharp_comments (remove_csharp_comments t) = remove_csharp_comments t.
Proof.
  induction t as [|c t r Hc IH|c t Hc IH] using scan_ind.
  - reflexivity.
  - rewrite strip_cons, Hc. exact IH.
  - rewrite (strip_cons c t), Hc.
    assert (Hm : comment_at (c :: remove_csharp_comments t) = None).
    { destruct (Ascii.eqb c slash) eqn:Ec.
      2:{ apply comment_at_not_slash. intros ->.
          rewrite Ascii.eqb_refl in Ec. discriminate. }
      apply Ascii.eqb_eq in Ec. subst c.
      destruct t as [|d t]; [reflexivity|].
      cbn [comment_at] in Hc. rewrite Ascii.eqb_refl in Hc.
      destruct (Ascii.eqb d slash) eqn:Ed; [discriminate|].
      rewrite strip_cons, (@comment_at_not_slash d t).
      2:{ intros E. rewrite E, Ascii.eqb_refl in Ed. discriminate. }
      cbn [comment_at]. rewrite Ascii.eqb_refl, Ed.
      destruct (Ascii.eqb d star); [|reflexivity].
      apply block_end_none. apply strip_no_close.
      apply block_end_none. exact Hc. }
    rewrite strip_cons, Hm, IH. reflexivity.
Qed.


(** C1. A line comment the stripper removes runs from its two slashes up
    to, and not including, the next line feed, or to the end of the text
    when no line feed follows; the line feed stays in the output right
    behind what was kept before the comment.  Line breaks are lost only
    inside block comments, and where no block comment can match every line
    of the output is the start of the same line of the input.  In
    particular the text [a(); // note], line feed, [b();] becomes [a(); ],
    line feed, [b();], and [x(); // end] becomes [x(); ]. *)
Theorem line_comment_span :
  (forall (s : text) (xs : list piece) (m : text) (ys : list piece),
      pieces pattern s = xs ++ Hit m :: ys ->
      is_line_comment m = true ->
      s = text_of xs ++ m ++ text_of ys /\
      ~ In LF m /\
      (text_of ys = [] /\ remove_csharp_comments s = join replacer xs \/
       exists r, text_of ys = LF :: r /\
                 remove_csharp_comments s =
                 join replacer xs ++ LF :: remove_csharp_comments r)) /\
  (forall s : text,
      count_lf s =
      count_lf (remove_csharp_comments s) +
      count_lf (block_text (pieces pattern s))) /\
  (forall s : text,
      has_pair star slash s = false ->
      Forall2 is_prefix (lines (remove_csharp_comments s)) (lines s)) /\
  remove_csharp_comments (txt "a(); // note" ++ LF :: txt "b();") =
  txt "a(); " ++ LF :: txt "b();" /\
  remove_csharp_comments (txt "x(); // end") = txt "x(); ".
Proof.
  split; [exact line_piece|].
  split; [exact line_breaks_kept|].
  split; [exact lines_kept|].
  split; vm_compute; reflexivity.
Qed.

Lemma line_comment_span_witness :
  let s := txt "x = 1; // one" ++ LF :: txt "y = 2; // two" in
  (~ In LF (txt "// one") /\
   remove_csharp_comments s =
   txt "x = 1; " ++ LF :: remove_csharp_comments (txt "y = 2; // two")) /\
  Forall2 is_prefix (lines (remove_csharp_comments s)) (lines s).
Proof.
  intros s. split.
  - destruct (proj1 line_comment_span s [Lit (txt "x = 1; ")] (txt "// one")
                [Lit (LF :: txt "y = 2; "); Hit (txt "// two"); Lit []])
      as (_ & Hlf & [(Hnil & _)|(r & Hr & Hout)]).
    + vm_compute. reflexivity.
    + reflexivity.
    + discriminate Hnil.
    + split; [exact Hlf|].
      injection Hr as <-. exact Hout.
  - apply (proj1 (proj2 (proj2 line_comment_span)) s).
    vm_compute. reflexivity.
Defined.

(** C3, as amended.  A block-comment opener with no closer after it does
    not match: the matcher finds nothing at the opener, and the opener
    stays in the output in front of what the stripper returns for the text
    behind it, so that nothing is removed on account of the opener.  The
    text behind it is not protected: it comes back unchanged when no
    line-comment marker follows the opener, and wherever such an opener
    stands in a text, no match begins at it.  In particular
    [code(); /* never closed] is returned unchanged. *)
Theorem unterminated_block_untouched :
  (forall t : text,
      has_pair star slash t = false ->
      match_at false pattern (slash :: star :: t) = None /\
      remove_csharp_comments (slash :: star :: t) =
      slash :: star :: remove_csharp_comments t) /\
  (forall pre t : text,
      ~ In slash pre ->
      has_pair star slash t = false ->
      has_pair slash slash t = false ->
      remove_csharp_comments (pre ++ slash :: star :: t) =
      pre ++ slash :: star :: t) /\
  (forall (pre t : text) (xs : list piece) (m : text) (ys : list piece),
      has_pair star slash t = false ->
      pieces pattern (pre ++ slash :: star :: t) = xs ++ Hit m :: ys ->
      text_of xs <> pre) /\
  remove_csharp_comments (txt "code(); /* never closed") =
  txt "code(); /* never closed".
Proof.
  split; [|split; [|split; [exact no_match_at_open|]]].
  - intros t Ht. split; [|apply strip_open_block; exact Ht].
    rewrite match_at_pattern. cbn [comment_at].
    rewrite Ascii.eqb_refl. change (Ascii.eqb star slash) with false.
    rewrite Ascii.eqb_refl. apply block_end_none. exact Ht.
  - intros pre t Hpre Hb Hl.
    rewrite strip_keep by exact Hpre.
    rewrite strip_open_block by exact Hb.
    rewrite strip_fixed by assumption. reflexivity.
  - vm_compute. reflexivity.
Qed.

(** C3 as worded fails: behind an opener that is never closed a line
    comment is still removed, so the span from the opener to the end of the
    text does not come back untouched. *)
Lemma unterminated_block_touched :
  has_pair star slash (txt " never closed // x") = false /\
  remove_csharp_comments (txt "code(); /* never closed // x") =
  txt "code(); /* never closed " /\
  remove_csharp_comments (txt "code(); /* never closed // x") <>
  txt "code(); /* never closed // x".
Proof.
  split; [vm_compute; reflexivity|].
  split; [vm_compute; reflexivity|].
  vm_compute. discriminate.
Qed.

Lemma unterminated_block_untouched_witness :
  match_at false pattern (txt "/* a * b / c") = None /\
  remove_csharp_comments (txt "f(x) /* a * b / c") = txt "f(x) /* a * b / c".
Proof.
  split.
  - apply (proj1 unterminated_block_untouched (txt " a * b / c")).
    vm_compute. reflexivity.
  - apply (proj1 (proj2 unterminated_block_untouched)
             (txt "f(x) ") (txt " a * b / c")).
    + vm_compute. intuition discriminate.
    + vm_compute. reflexivity.
    + vm_compute. reflexivity.
Defined.

(** C4. Block comments are matched shortest first: an opener is matched up
    to the first closer behind it, whatever follows, so that two block
    comments on one line are removed one by one and the text between them
    stays; every block comment the stripper removes, anywhere in a text,
    has no closer before its last two characters.  In particular
    [/* a */ code() /* b */] becomes [ code() ]. *)
Theorem block_comment_shortest_match :
  (forall body rest : text,
      has_pair star slash body = false ->
      match_at false pattern (slash :: star :: body ++ star :: slash :: rest)
      = Some rest /\
      remove_csharp_comments (slash :: star :: body ++ star :: slash :: rest)
      = remove_csharp_comments rest) /\
  (forall b1 mid b2 rest : text,
      has_pair star slash b1 = false ->
      has_pair star slash b2 = false ->
      ~ In slash mid ->
      remove_csharp_comments
        (slash :: star :: b1 ++ star :: slash :: mid ++
         slash :: star :: b2 ++ star :: slash :: rest)
      = mid ++ remove_csharp_comments rest) /\
  (forall s m : text,
      In (Hit m) (pieces pattern s) ->
      is_block_comment m = true ->
      exists body, m = slash :: star :: body ++ [star; slash] /\
                   has_pair star slash body = false) /\
  remove_csharp_comments (txt "/* a */ code() /* b */") = txt " code() ".
Proof.
  split; [|split; [|split; [exact block_piece|]]].
  - intros body rest Hb. split; [|apply strip_block; exact Hb].
    rewrite match_at_pattern. cbn [comment_at].
    rewrite Ascii.eqb_refl. change (Ascii.eqb star slash) with false.
    rewrite Ascii.eqb_refl. apply block_end_app. exact Hb.
  - intros b1 mid b2 rest H1 H2 Hmid.
    rewrite strip_block by exact H1.
    rewrite strip_keep by exact Hmid.
    rewrite strip_block by exact H2. reflexivity.
  - vm_compute. reflexivity.
Qed.

Lemma block_comment_shortest_match_witness :
  match_at false pattern (txt "/* a */ b */ c") = Some (txt " b */ c") /\
  remove_csharp_comments (txt "/* p **/ q = 1; /*r*/ s") = txt " q = 1;  s".
Proof.
  split.
  - apply (proj1 block_comment_shortest_match (txt " a ") (txt " b */ c")).
    vm_compute. reflexivity.
  - apply (proj1 (proj2 block_comment_shortest_match)
             (txt " p *") (txt " q = 1; ") (txt "r") (txt " s")).
    + vm_compute. reflexivity.
    + vm_compute. reflexivity.
    + vm_compute. intuition discriminate.
Defined.

(** C5. A text in which neither two slashes nor slash-star occur is
    returned as it is.  In general the text is the sequence of its pieces,
    kept slices and matches, in order; the output is the same sequence with
    every match left out, and every match is a comment. *)
Theorem non_comment_text_preserved :
  (forall s : text,
      has_pair slash slash s = false ->
      has_pair slash star s = false ->
      remove_csharp_comments s = s) /\
  (forall s : text,
      text_of (pieces pattern s) = s /\
      remove_csharp_comments s = join (fun _ => []) (pieces pattern s) /\
      forall m, In (Hit m) (pieces pattern s) ->
                is_line_comment m = true \/ is_block_comment m = true).
Proof.
  split.
  - induction s as [|c t IH]; intros Hl Hb; [reflexivity|].
    rewrite strip_cons.
    assert (Hc : comment_at (c :: t) = None).
    { destruct (comment_at (c :: t)) as [r|] eqn:Hc; [|reflexivity].
      exfalso.
      destruct (comment_at_cases _ Hc) as [(body & E & _)|(body & E & _)];
        rewrite E in *.
      - pose proof (has_pair_here slash slash [] (body ++ r)) as H.
        simpl app in H. rewrite H in Hl. discriminate.
      - pose proof (has_pair_here slash star []
                      (body ++ star :: slash :: r)) as H.
        simpl app in H. rewrite H in Hb. discriminate. }
    rewrite Hc. f_equal. apply IH; eapply has_pair_tail; eassumption.
  - intros s. split; [apply text_of_pieces|]. split; [reflexivity|].
    intros m. apply piece_is_comment.
Qed.

Lemma non_comment_text_preserved_witness :
  remove_csharp_comments (txt "a = b / c * d; /") = txt "a = b / c * d; /".
Proof.
  apply (proj1 non_comment_text_preserved (txt "a = b / c * d; /")).
  - vm_compute. reflexivity.
  - vm_compute. reflexivity.
Defined.

(** C10. What follows an opener that is never closed is still scanned: a
    line comment behind it, on the same or a later line, is removed while
    the opener stays.  In particular [/* open], line feed, [// inner]
    becomes [/* open], line feed. *)
Theorem line_comment_after_unterminated_block :
  (forall t : text,
      has_pair star slash t = false ->
      remove_csharp_comments (slash :: star :: t) =
      slash :: star :: remove_csharp_comments t) /\
  (forall a body : text,
      ~ In slash a ->
      ~ In LF body ->
      has_pair star slash (a ++ slash :: slash :: body) = false ->
      remove_csharp_comments (slash :: star :: a ++ slash :: slash :: body) =
      slash :: star :: a) /\
  remove_csharp_comments (txt "/* open" ++ LF :: txt "// inner") =
  txt "/* open" ++ [LF].
Proof.
  split; [|split].
  - exact strip_open_block.
  - intros a body Ha Hbody Hb.
    rewrite strip_open_block by exact Hb.
    rewrite strip_keep by exact Ha.
    rewrite strip_line_eof by exact Hbody.
    rewrite app_nil_r. reflexivity.
  - vm_compute. reflexivity.
Qed.

Lemma line_comment_after_unterminated_block_witness :
  remove_csharp_comments
    (txt "/* todo" ++ LF :: txt "x = 1; // set x") =
  txt "/* todo" ++ LF :: txt "x = 1; ".
Proof.
  apply (proj1 (proj2 line_comment_after_unterminated_block)
           (txt " todo" ++ LF :: txt "x = 1; ") (txt " set x")).
  - vm_compute. intuition discriminate.
  - vm_compute. intuition discriminate.
  - vm_compute. reflexivity.
Defined.

(** ** Further properties of the stripper *)

Lemma kept_head (c : ascii) (t : text) :
  comment_at (c :: t) = None ->
  comment_at (c :: remove_csharp_comments t) = None.
Proof.
  intros Hc. destruct (Ascii.eqb c slash) eqn:Ec.
  2:{ apply comment_at_not_slash. intros ->.
      rewrite Ascii.eqb_refl in Ec. discriminate. }
  apply Ascii.eqb_eq in Ec. subst c.
  destruct t as [|d t]; [reflexivity|].
  cbn [comment_at] in Hc. rewrite Ascii.eqb_refl in Hc.
  destruct (Ascii.eqb d slash) eqn:Ed; [discriminate|].
  rewrite strip_cons, (@comment_at_not_slash d t).
  2:{ intros E. rewrite E, Ascii.eqb_refl in Ed. discriminate. }
  cbn [comment_at]. rewrite Ascii.eqb_refl, Ed.
  destruct (Ascii.eqb d star); [|reflexivity].
  apply block_end_none. apply strip_no_close.
  apply block_end_none. exact Hc.
Qed.

Lemma strip_clean (s : text) :
  search false pattern (remove_csharp_comments s) = None.
Proof.
  induction s as [|c t r Hc IH|c t Hc IH] using scan_ind.
  - reflexivity.
  - rewrite strip_cons, Hc. exact IH.
  - rewrite strip_cons, Hc, search_cons, (kept_head _ _ Hc), IH. reflexivity.
Qed.

Lemma search_none_suffix (a b : text) :
  search false pattern (a ++ b) = None -> comment_at b = None.
Proof.
  induction a as [|c a IH].
  - destruct b as [|c t]; [reflexivity|]. simpl app. rewrite search_cons.
    destruct (comment_at (c :: t)); [discriminate|reflexivity].
  - simpl app. rewrite search_cons.
    destruct (comment_at (c :: a ++ b)); [discriminate|].
    destruct (search false pattern (a ++ b)) as [[[pre m] rest]|];
      [discriminate|]. intros _. apply IH. reflexivity.
Qed.

Lemma search_none_intro (s : text) :
  (forall a b, s = a ++ b -> comment_at b = None) ->
  search false pattern s = None.
Proof.
  induction s as [|c t IH]; intros H; [reflexivity|].
  rewrite search_cons, (H [] (c :: t) eq_refl), IH; [reflexivity|].
  intros a b E. apply (H (c :: a) b). rewrite E. reflexivity.
Qed.

Lemma has_pair_split (x y : ascii) (s : text) :
  has_pair x y s = true -> exists a b, s = a ++ x :: y :: b.
Proof.
  induction s as [|c t IH]; [discriminate|].
  destruct t as [|d t]; [discriminate|].
  rewrite has_pair_cons. intros H. apply orb_prop in H as [H|H].
  - apply andb_prop in H as [Hc Hd]. apply Ascii.eqb_eq in Hc, Hd. subst.
    exists [], t. reflexivity.
  - destruct (IH H) as (a & b & E). exists (c :: a), b.
    rewrite E. reflexivity.
Qed.

Lemma comment_at_line (b : text) : comment_at (slash :: slash :: b) <> None.
Proof. cbn [comment_at]. rewrite Ascii.eqb_refl. discriminate. Qed.

Lemma comment_at_open (b : text) :
  comment_at (slash :: star :: b) = block_end b.
Proof.
  cbn [comment_at]. rewrite Ascii.eqb_refl.
  change (Ascii.eqb star slash) with false. rewrite Ascii.eqb_refl.
  reflexivity.
Qed.

Lemma strip_length (s : text) :
  length (remove_csharp_comments s) <= length s.
Proof.
  induction s as [|c t r Hc IH|c t Hc IH] using scan_ind.
  - simpl. lia.
  - rewrite strip_cons, Hc. apply comment_at_length in Hc. lia.
  - rewrite strip_cons, Hc. simpl. lia.
Qed.

(** X1. The pattern matches nowhere in a stripped text: the output holds
    no two slashes side by side, and every opener left in it has no closer
    behind it. *)
Theorem stripped_text_has_no_comment (s : text) :
  search false pattern (remove_csharp_comments s) = None /\
  has_pair slash slash (remove_csharp_comments s) = false /\
  (forall a b, remove_csharp_comments s = a ++ slash :: star :: b ->
               has_pair star slash b = false).
Proof.
  pose proof (strip_clean s) as Hclean. split; [exact Hclean|]. split.
  - destruct (has_pair slash slash (remove_csharp_comments s)) eqn:H;
      [|reflexivity].
    destruct (has_pair_split _ _ _ H) as (a & b & E).
    rewrite E in Hclean. apply search_none_suffix in Hclean.
    exfalso. exact (@comment_at_line _ Hclean).
  - intros a b E. rewrite E in Hclean. apply search_none_suffix in Hclean.
    rewrite comment_at_open in Hclean. apply block_end_none. exact Hclean.
Qed.

Lemma stripped_text_has_no_comment_witness :
  has_pair star slash (txt " rest ") = false.
Proof.
  apply (proj2 (proj2 (stripped_text_has_no_comment
                         (txt "a /* b */ /* rest // c")))
           (txt "a  ") (txt " rest ")).
  vm_compute. reflexivity.
Defined.

(** X2. The stripper never makes a text longer; it returns a text
    unchanged exactly when the pattern matches nowhere in it, and a changed
    text is at least two characters shorter. *)
Theorem unchanged_iff_no_match (s : text) :
  length (remove_csharp_comments s) <= length s /\
  (remove_csharp_comments s = s <-> search false pattern s = None) /\
  (remove_csharp_comments s <> s ->
   length (remove_csharp_comments s) + 2 <= length s).
Proof.
  split; [apply strip_length|].
  rewrite (strip_search s).
  destruct (search false pattern s) as [[[pre m] rest]|] eqn:Hs.
  - apply search_spec in Hs as [Hsplit Hc].
    pose proof (strip_length rest) as Hr.
    apply comment_at_length in Hc.
    assert (Hlen : length (pre ++ remove_csharp_comments rest) + 2
                   <= length s).
    { rewrite Hsplit, !length_app in *. lia. }
    split; [split|].
    + intros E. rewrite E in Hlen. lia.
    + discriminate.
    + intros _. exact Hlen.
  - split; [split; reflexivity|]. intros H. contradiction.
Qed.

Lemma unchanged_iff_no_match_witness :
  length (remove_csharp_comments (txt "x /**/ y")) + 2
  <= length (txt "x /**/ y").
Proof.
  apply (proj2 (proj2 (unchanged_iff_no_match (txt "x /**/ y")))).
  vm_compute. discriminate.
Defined.

(** X3. A text is returned unchanged exactly when it holds no two slashes
    side by side and none of its openers has a closer behind it. *)
Theorem unchanged_iff_no_markers (s : text) :
  remove_csharp_comments s = s <->
  has_pair slash slash s = false /\
  (forall a b, s = a ++ slash :: star :: b -> has_pair star slash b = false).
Proof.
  split.
  - intros E. pose proof (strip_clean s) as Hclean. rewrite E in Hclean.
    split.
    + destruct (has_pair slash slash s) eqn:H; [|reflexivity].
      destruct (has_pair_split _ _ _ H) as (a & b & Es).
      rewrite Es in Hclean. apply search_none_suffix in Hclean.
      exfalso. exact (@comment_at_line _ Hclean).
    + intros a b Es. rewrite Es in Hclean.
      apply search_none_suffix in Hclean.
      rewrite comment_at_open in Hclean. apply block_end_none. exact Hclean.
  - intros [Hl Hb]. rewrite strip_search, search_none_intro; [reflexivity|].
    intros a b Es. destruct (comment_at b) as [r|] eqn:Hc; [|reflexivity].
    exfalso.
    destruct (comment_at_cases _ Hc) as [(body & E & _)|(body & E & _)];
      subst b.
    + rewrite Es, (has_pair_here slash slash a (body ++ r)) in Hl.
      discriminate.
    + specialize (Hb a (body ++ star :: slash :: r) Es).
      rewrite has_pair_here in Hb. discriminate.
Qed.

Lemma unchanged_iff_no_markers_witness :
  has_pair slash slash (txt "a / b /* c * d") = false /\
  remove_csharp_comments (txt "a / b /* c * d") = txt "a / b /* c * d".
Proof.
  split.
  - apply (proj1 (unchanged_iff_no_markers (txt "a / b /* c * d"))).
    vm_compute. reflexivity.
  - apply (proj2 (unchanged_iff_no_markers (txt "a / b /* c * d"))).
    split; [vm_compute; reflexivity|].
    intros a b E.
    apply (@has_pair_suffix star slash (a ++ [slash; star]) b).
    rewrite <- app_assoc. cbn [app]. rewrite <- E. vm_compute. reflexivity.
Defined.

(** X4. Where no closer occurs, the stripper works line by line: the
    stripped text of two parts joined by a line feed is the two stripped
    parts joined by a line feed. *)
Theorem strip_line_by_line (a b : text) :
  has_pair star slash (a ++ LF :: b) = false ->
  remove_csharp_comments (a ++ LF :: b) =
  remove_csharp_comments a ++ LF :: remove_csharp_comments b.
Proof.
  induction a as [|c t r Hc IH|c t Hc IH] using scan_ind; intros Hb.
  - simpl app. apply strip_lf.
  - destruct (comment_at_cases _ Hc) as [(body & E & Hlf & Hr)|(body & E & _)].
    2:{ exfalso. rewrite E in Hb.
        assert (H : (slash :: star :: body ++ star :: slash :: r) ++ LF :: b
                    = (slash :: star :: body) ++
                      star :: slash :: (r ++ LF :: b))
          by (simpl; rewrite <- app_assoc; reflexivity).
        rewrite H, has_pair_here in Hb. discriminate. }
    rewrite E in *.
    change ((slash :: slash :: body ++ r) ++ LF :: b)
      with (slash :: slash :: (body ++ r) ++ LF :: b) in *.
    rewrite <- app_assoc in *.
    assert (Hbr : has_pair star slash (r ++ LF :: b) = false).
    { change (slash :: slash :: body ++ r ++ LF :: b)
        with ((slash :: slash :: body) ++ r ++ LF :: b) in Hb.
      exact (has_pair_suffix _ _ _ _ Hb). }
    specialize (IH Hbr).
    destruct (line_end_head (body ++ r)) as [Hnil|(r' & Hcons)];
      rewrite <- Hr in *.
    + subst r. simpl app. rewrite app_nil_r.
      rewrite strip_line, strip_line_eof by exact Hlf. reflexivity.
    + subst r. simpl app in *.
      rewrite !strip_line by exact Hlf.
      rewrite !strip_lf in IH. exact IH.
  - simpl app. rewrite !strip_cons, Hc.
    assert (Hc' : comment_at (c :: t ++ LF :: b) = None).
    { destruct (Ascii.eqb c slash) eqn:Ec.
      2:{ apply comment_at_not_slash. intros ->.
          rewrite Ascii.eqb_refl in Ec. discriminate. }
      apply Ascii.eqb_eq in Ec. subst c.
      destruct t as [|d t]; [reflexivity|].
      simpl app. cbn [comment_at] in *. rewrite Ascii.eqb_refl in *.
      destruct (Ascii.eqb d slash); [discriminate|].
      destruct (Ascii.eqb d star); [|reflexivity].
      apply block_end_none.
      simpl app in Hb. apply has_pair_tail in Hb. apply has_pair_tail in Hb.
      exact Hb. }
    rewrite Hc'. simpl app. f_equal. apply IH.
    simpl app in Hb. exact (has_pair_tail _ _ _ _ Hb).
Qed.

Lemma strip_line_by_line_witness :
  remove_csharp_comments (txt "x /* y // z" ++ LF :: txt "u // v") =
  remove_csharp_comments (txt "x /* y // z") ++
  LF :: remove_csharp_comments (txt "u // v").
Proof.
  apply (strip_line_by_line (txt "x /* y // z") (txt "u // v")).
  vm_compute. reflexivity.
Defined.

Lemma line_end_map (f : ascii -> ascii) (t : text) :
  (forall c, Ascii.eqb (f c) LF = Ascii.eqb c LF) ->
  line_end (map f t) = map f (line_end t).
Proof.
  intros Hf. induction t as [|c t IH]; [reflexivity|].
  cbn [map line_end]. rewrite Hf. destruct (Ascii.eqb c LF).
  - reflexivity.
  - exact IH.
Qed.

Lemma block_end_map (f : ascii -> ascii) (t : text) :
  (forall c, Ascii.eqb (f c) slash = Ascii.eqb c slash) ->
  (forall c, Ascii.eqb (f c) star = Ascii.eqb c star) ->
  block_end (map f t) = option_map (map f) (block_end t).
Proof.
  intros Hs Ha. induction t as [|c t IH]; [reflexivity|].
  destruct t as [|d t]; [reflexivity|].
  cbn [map] in *. rewrite !block_end_cons, Ha, Hs.
  destruct (Ascii.eqb c star && Ascii.eqb d slash).
  - reflexivity.
  - exact IH.
Qed.

Lemma comment_at_map (f : ascii -> ascii) (s : text) :
  (forall c, Ascii.eqb (f c) slash = Ascii.eqb c slash) ->
  (forall c, Ascii.eqb (f c) star = Ascii.eqb c star) ->
  (forall c, Ascii.eqb (f c) LF = Ascii.eqb c LF) ->
  comment_at (map f s) = option_map (map f) (comment_at s).
Proof.
  intros Hs Ha Hl. destruct s as [|c [|d t]]; [reflexivity|reflexivity|].
  cbn [map comment_at]. rewrite !Hs, Ha.
  destruct (Ascii.eqb c slash); [|reflexivity].
  destruct (Ascii.eqb d slash).
  - cbn [option_map]. rewrite line_end_map by exact Hl. reflexivity.
  - destruct (Ascii.eqb d star); [|reflexivity].
    apply block_end_map; assumption.
Qed.

Lemma eqb_of_iff (f : ascii -> ascii) (x : ascii) :
  (forall c, f c = x <-> c = x) ->
  forall c, Ascii.eqb (f c) x = Ascii.eqb c x.
Proof.
  intros H c. destruct (Ascii.eqb c x) eqn:E.
  - apply Ascii.eqb_eq. apply H. apply Ascii.eqb_eq. exact E.
  - apply Ascii.eqb_neq. intros Hf. apply Ascii.eqb_neq in E.
    exact (E (proj1 (H c) Hf)).
Qed.

(** X5. The stripper tells the slash, the star and the line feed from all
    other characters and nothing more: renaming the characters of a text in
    a way that keeps these three apart from the rest renames the output in
    the same way.  A quote is a character like any other. *)
Theorem strip_blind_to_other_characters (f : ascii -> ascii) (s : text) :
  (forall c, f c = slash <-> c = slash) ->
  (forall c, f c = star <-> c = star) ->
  (forall c, f c = LF <-> c = LF) ->
  remove_csharp_comments (map f s) = map f (remove_csharp_comments s).
Proof.
  intros Hs Ha Hl.
  pose proof (eqb_of_iff f Hs) as Hs'.
  pose proof (eqb_of_iff f Ha) as Ha'.
  pose proof (eqb_of_iff f Hl) as Hl'.
  induction s as [|c t r Hc IH|c t Hc IH] using scan_ind.
  - reflexivity.
  - rewrite (strip_cons c t), Hc. cbn [map]. rewrite strip_cons.
    change (f c :: map f t) with (map f (c :: t)).
    rewrite comment_at_map, Hc by assumption. exact IH.
  - rewrite (strip_cons c t), Hc. cbn [map]. rewrite strip_cons.
    change (f c :: map f t) with (map f (c :: t)) at 1.
    rewrite comment_at_map, Hc by assumption. cbn [option_map].
    f_equal. exact IH.
Qed.

Lemma unquote_keeps (x : ascii) :
  x <> "034"%char -> x <> "039"%char ->
  forall c, unquote c = x <-> c = x.
Proof.
  intros H1 H2 c. unfold unquote.
  destruct (Ascii.eqb c "034"%char) eqn:E; [|tauto].
  apply Ascii.eqb_eq in E. subst c. split; intros H.
  - exfalso. apply H2. symmetry. exact H.
  - exfalso. apply H1. symmetry. exact H.
Qed.

Lemma strip_blind_to_other_characters_witness :
  let s := txt "u = " ++ "034"%char :: txt "http://x" ++ ["034"%char; ";"%char]
  in
  remove_csharp_comments (map unquote s) =
  map unquote (remove_csharp_comments s).
Proof.
  intros s.
  apply (strip_blind_to_other_characters unquote s);
    apply unquote_keeps; discriminate.
Defined.

(** ** The driver, one file at a time *)

Section DriverFacts.

Context {W : Type} {os : OS W}.

Lemma process_file_step (root_dir : path) (output_dir : option path)
    (subdir : path) (filename : string) (cnt : counters) (w : W) :
  file_step root_dir output_dir subdir filename cnt w
    (process_file root_dir output_dir subdir filename cnt w).
Proof.
  destruct cnt as [fc pc].
  unfold process_file.
  destruct (endswith filename ".cs") eqn:Hcs.
  2:{ apply step_other. exact Hcs. }
  unfold bind, try_except, read_file.
  destruct (os_read w (join_path subdir [filename])) as [e|content] eqn:Hr.
  { cbn. apply (step_unreadable _ _ _ _ (fc, pc) _ Hcs Hr). }
  cbn -[list_eq_dec remove_csharp_comments].
  destruct (list_eq_dec ascii_dec (remove_csharp_comments content) content)
    as [Heq|Hne].
  { cbn. apply (step_unchanged _ _ _ _ (fc, pc) _ Hcs Hr Heq). }
  destruct output_dir as [o|].
  - unfold makedirs, write_file. cbn -[remove_csharp_comments].
    destruct (os_makedirs w
      (dirname (join_path o (relpath (join_path subdir [filename]) root_dir))))
      as [w1 [e|]] eqn:Hm.
    + cbn -[remove_csharp_comments]. apply (step_blocked _ _ _ (fc, pc) _ Hcs Hr Hne eq_refl Hm).
    + cbn -[remove_csharp_comments].
      destruct (os_write w1
        (join_path o (relpath (join_path subdir [filename]) root_dir))
        (remove_csharp_comments content)) as [w2 r] eqn:Hw.
      pose proof (step_mirrored _ _ _ (fc, pc) _ Hcs Hr Hne eq_refl Hm Hw)
        as Hstep.
      destruct r as [e|]; exact Hstep.
  - unfold write_file. cbn -[remove_csharp_comments].
    destruct (os_write w (join_path subdir [filename])
                (remove_csharp_comments content)) as [w1 r] eqn:Hw.
    pose proof (@step_in_place W os root_dir None subdir filename (fc, pc) w
                  content w1 r Hcs Hr Hne eq_refl Hw) as Hstep.
    destruct r as [e|]; exact Hstep.
Qed.


Lemma count_events_app (f : event -> bool) (t1 t2 : list event) :
  count_events f (t1 ++ t2) = count_events f t1 + count_events f t2.
Proof. unfold count_events. rewrite filter_app, length_app. reflexivity. Qed.

Lemma count_events_cons (f : event -> bool) (e : event) (tr : list event) :
  count_events f (e :: tr) = (if f e then 1 else 0) + count_events f tr.
Proof. unfold count_events. simpl. destruct (f e); reflexivity. Qed.

Lemma count_events_nil (f : event -> bool) : count_events f [] = 0.
Proof. reflexivity. Qed.

Lemma walked_files_app (t1 t2 : list event) :
  walked_files (t1 ++ t2) = walked_files t1 ++ walked_files t2.
Proof. unfold walked_files. apply flat_map_app. Qed.

Lemma count_cs_app (l1 l2 : list string) :
  count_cs (l1 ++ l2) = count_cs l1 + count_cs l2.
Proof. unfold count_cs. rewrite filter_app, length_app. reflexivity. Qed.

Lemma changed_read_true (p : path) (content : text) :
  remove_csharp_comments content <> content ->
  is_changed_read (EvRead p (inr content)) = true.
Proof.
  intros H. unfold is_changed_read.
  destruct (list_eq_dec ascii_dec (remove_csharp_comments content) content);
    [contradiction|reflexivity].
Qed.

Lemma changed_read_false (p : path) (content : text) :
  remove_csharp_comments content = content ->
  is_changed_read (EvRead p (inr content)) = false.
Proof.
  intros H. unfold is_changed_read.
  destruct (list_eq_dec ascii_dec (remove_csharp_comments content) content);
    [reflexivity|contradiction].
Qed.

Lemma count_write_report (f : event -> bool) (p : path) (r : option exn) :
  (forall e, f (EvPrint (Failed_to_write p e)) = false) ->
  count_events f (write_report p r) = 0.
Proof.
  intros Hf. destruct r; simpl; [|reflexivity].
  rewrite count_events_cons, Hf. reflexivity.
Qed.

Ltac count_trace :=
  repeat first
    [ rewrite count_events_app
    | rewrite count_events_cons
    | rewrite count_events_nil
    | rewrite count_write_report by reflexivity
    | rewrite changed_read_true by assumption
    | rewrite changed_read_false by assumption ];
  cbn [is_summary is_read is_processed is_failed_read is_output is_scan
       is_changed_read fst snd].

Ltac sound_split :=
  unfold sound; count_trace;
  split; [|split; [|split]].

Lemma sound_file (root_dir : path) (output_dir : option path)
    (subdir : path) (filename : string) (cnt : counters) (w : W) :
  sound output_dir cnt w
    (process_file root_dir output_dir subdir filename cnt w).
Proof.
  destruct (process_file_step root_dir output_dir subdir filename cnt w)
    as [Hcs|e Hcs Hr|content Hcs Hr Heq|content o w1 e Hcs Hr Hne Ho Hm
       |content o w1 w2 r Hcs Hr Hne Ho Hm Hw|content w1 r Hcs Hr Hne Ho Hw];
    sound_split;
    try lia;
    try (intros e' He'; discriminate He');
    try (intros Hz; split; [reflexivity|lia]);
    try (intros Hz; exfalso; lia);
    try (intros cnt' [= <-]; simpl; lia).
  intros e' [= <-]. split; [congruence|].
  exists [EvRead (join_path subdir [filename]) (inr content)].
  eexists. reflexivity.
Qed.

Lemma sound_bind (output_dir : option path) (cnt : counters) (w : W)
    (m : M counters) (k : counters -> M counters) :
  sound output_dir cnt w (m w) ->
  (forall cnt1 w1, sound output_dir cnt1 w1 (k cnt1 w1)) ->
  sound output_dir cnt w (bind m k w).
Proof.
  unfold bind. destruct (m w) as [[r w1] t1].
  intros (Hs & Hr & Hw & Hd) Hk.
  destruct r as [cnt1|e|].
  - specialize (Hk cnt1 w1). destruct (k cnt1 w1) as [[r2 w2] t2].
    destruct Hk as (Hs2 & Hr2 & Hw2 & Hd2).
    destruct (Hd _ eq_refl) as (Hf & Hp & Hc).
    sound_split.
    + lia.
    + intros e He. destruct (Hr2 e He) as (Ho & tr0 & d & ->).
      split; [exact Ho|]. exists (t1 ++ tr0), d. apply app_assoc.
    + intros Hz.
      destruct Hw as [-> Ho1]; [lia|]. destruct Hw2 as [-> Ho2]; [lia|].
      split; [reflexivity|lia].
    + intros cnt' Hd'. destruct (Hd2 _ Hd') as (Hf2 & Hp2 & Hc2).
      repeat split; lia.
  - sound_split; assumption.
  - sound_split; assumption.
Qed.

Lemma sound_ret (output_dir : option path) (cnt : counters) (w : W) :
  sound output_dir cnt w (ret cnt w).
Proof.
  unfold ret. sound_split.
  - reflexivity.
  - intros e He. discriminate He.
  - intros _. split; reflexivity.
  - intros cnt' [= <-]. lia.
Qed.

Lemma sound_files (root_dir : path) (output_dir : option path)
    (subdir : path) (files : list string) (cnt : counters) (w : W) :
  sound output_dir cnt w
    (process_files root_dir output_dir subdir files cnt w).
Proof.
  revert cnt w. induction files as [|filename files IH]; intros cnt w.
  - apply sound_ret.
  - cbn [process_files]. apply sound_bind.
    + apply sound_file.
    + exact IH.
Qed.

(** The inner loop lists no directory, never runs out of fuel, and when it
    completes it has read every [.cs] file of its list once. *)
Lemma file_not_walked (root_dir : path) (output_dir : option path)
    (subdir : path) (filename : string) (cnt : counters) (w : W) :
  walked_files (snd (process_file root_dir output_dir subdir filename cnt w))
  = [].
Proof.
  destruct (process_file_step root_dir output_dir subdir filename cnt w)
    as [ | | | | ? ? ? ? r|? ? r]; try reflexivity; destruct r; reflexivity.
Qed.

Lemma files_not_walked (root_dir : path) (output_dir : option path)
    (subdir : path) (files : list string) (cnt : counters) (w : W) :
  walked_files (snd (process_files root_dir output_dir subdir files cnt w))
  = [].
Proof.
  revert cnt w. induction files as [|filename files IH]; intros cnt w.
  - reflexivity.
  - cbn [process_files]. unfold bind.
    pose proof (file_not_walked root_dir output_dir subdir filename cnt w)
      as Hf.
    destruct (process_file root_dir output_dir subdir filename cnt w)
      as [[r w1] t1].
    destruct r as [cnt1|e|]; try exact Hf.
    specialize (IH cnt1 w1).
    destruct (process_files root_dir output_dir subdir files cnt1 w1)
      as [[r2 w2] t2].
    cbn [snd] in *. rewrite walked_files_app, Hf, IH. reflexivity.
Qed.

Lemma file_has_fuel (root_dir : path) (output_dir : option path)
    (subdir : path) (filename : string) (cnt : counters) (w : W) :
  fst (fst (process_file root_dir output_dir subdir filename cnt w))
  <> Out_of_fuel.
Proof.
  destruct (process_file_step root_dir output_dir subdir filename cnt w);
    discriminate.
Qed.

Lemma files_have_fuel (root_dir : path) (output_dir : option path)
    (subdir : path) (files : list string) (cnt : counters) (w : W) :
  fst (fst (process_files root_dir output_dir subdir files cnt w))
  <> Out_of_fuel.
Proof.
  revert cnt w. induction files as [|filename files IH]; intros cnt w.
  - discriminate.
  - cbn [process_files]. unfold bind.
    pose proof (file_has_fuel root_dir output_dir subdir filename cnt w)
      as Hf.
    destruct (process_file root_dir output_dir subdir filename cnt w)
      as [[r w1] t1].
    destruct r as [cnt1|e|]; try exact Hf.
    specialize (IH cnt1 w1).
    destruct (process_files root_dir output_dir subdir files cnt1 w1)
      as [[r2 w2] t2].
    exact IH.
Qed.

Lemma file_reads (root_dir : path) (output_dir : option path)
    (subdir : path) (filename : string) (cnt cnt' : counters) (w w' : W)
    (tr : list event) :
  process_file root_dir output_dir subdir filename cnt w = (Done cnt', w', tr) ->
  count_events is_read tr = count_cs [filename].
Proof.
  unfold count_cs. cbn [filter].
  destruct (process_file_step root_dir output_dir subdir filename cnt w)
    as [Hcs|e Hcs Hr|content Hcs Hr Heq|content o w1 e Hcs Hr Hne Ho Hm
       |content o w1 w2 r Hcs Hr Hne Ho Hm Hw|content w1 r Hcs Hr Hne Ho Hw];
    intros [= <- <- <-]; rewrite Hcs; count_trace; reflexivity.
Qed.

Lemma files_reads (root_dir : path) (output_dir : option path)
    (subdir : path) (files : list string) (cnt cnt' : counters) (w w' : W)
    (tr : list event) :
  process_files root_dir output_dir subdir files cnt w = (Done cnt', w', tr) ->
  count_events is_read tr = count_cs files.
Proof.
  revert cnt w tr. induction files as [|filename files IH]; intros cnt w tr.
  - intros [= <- <- <-]. reflexivity.
  - cbn [process_files]. unfold bind.
    pose proof (fun c' w' tr' =>
      @file_reads root_dir output_dir subdir filename cnt c' w w' tr') as Hf.
    destruct (process_file root_dir output_dir subdir filename cnt w)
      as [[r w1] t1].
    destruct r as [cnt1|e|]; try discriminate.
    specialize (Hf _ _ _ eq_refl). specialize (IH cnt1 w1).
    destruct (process_files root_dir output_dir subdir files cnt1 w1)
      as [[r2 w2] t2].
    intros [= -> <- <-]. rewrite count_events_app, Hf, (IH _ eq_refl).
    change (filename :: files) with ([filename] ++ files).
    apply eq_sym, count_cs_app.
Qed.

(** ** The walk *)

Lemma walk_nil (fuel : nat) (root_dir : path) (output_dir : option path)
    (cnt : counters) (w : W) :
  walk fuel root_dir output_dir [] cnt w = (Done cnt, w, []).
Proof. destruct fuel; reflexivity. Qed.

Lemma walk_cons (fuel : nat) (root_dir : path) (output_dir : option path)
    (top : path) (stack : list path) (cnt : counters) (w : W) :
  walk (S fuel) root_dir output_dir (top :: stack) cnt w =
  let '(r2, w2, t2) :=
    match os_scandir w top with
    | None => walk fuel root_dir output_dir stack cnt w
    | Some (dirs, files) =>
        bind (process_files root_dir output_dir top files cnt)
          (fun cnt1 =>
             walk fuel root_dir output_dir
               (map (fun d => join_path top [d]) dirs ++ stack) cnt1) w
    end in
  (r2, w2, EvScan top (os_scandir w top) :: t2).
Proof.
  cbn [walk]. unfold bind at 1. unfold scandir.
  destruct (os_scandir w top) as [[dirs files]|]; reflexivity.
Qed.

Lemma sound_scan (output_dir : option path) (cnt : counters) (w w' : W)
    (r : outcome counters) (tr : list event) (top : path)
    (x : option (list string * list string)) :
  sound output_dir cnt w (r, w', tr) ->
  sound output_dir cnt w (r, w', EvScan top x :: tr).
Proof.
  unfold sound. count_trace. intros (Hs & Hr & Hrest).
  split; [exact Hs|]. split; [|exact Hrest].
  intros e He. destruct (Hr e He) as (Ho & tr0 & d & ->).
  split; [exact Ho|]. exists (EvScan top x :: tr0), d. reflexivity.
Qed.

Lemma sound_walk (fuel : nat) (root_dir : path) (output_dir : option path)
    (stack : list path) (cnt : counters) (w : W) :
  sound output_dir cnt w (walk fuel root_dir output_dir stack cnt w).
Proof.
  revert stack cnt w. induction fuel as [|fuel IH]; intros stack cnt w.
  - destruct stack as [|top stack]; [apply sound_ret|].
    sound_split; try discriminate; try reflexivity.
    intros _. split; reflexivity.
  - destruct stack as [|top stack]; [apply sound_ret|].
    rewrite walk_cons.
    destruct (os_scandir w top) as [[dirs files]|].
    + pose proof (@sound_bind output_dir cnt w
        (process_files root_dir output_dir top files cnt)
        (fun cnt1 => walk fuel root_dir output_dir
           (map (fun d => join_path top [d]) dirs ++ stack) cnt1)
        (sound_files _ _ _ _ _ _) (fun c1 w1 => IH _ c1 w1)) as Hb.
      destruct (bind _ _ w) as [[r2 w2] t2]. apply sound_scan. exact Hb.
    + pose proof (IH stack cnt w) as Hb.
      destruct (walk fuel root_dir output_dir stack cnt w) as [[r2 w2] t2].
      apply sound_scan. exact Hb.
Qed.

(** Fuel runs out only on a walk that has listed that many directories. *)
Lemma walk_out_of_fuel (fuel : nat) (root_dir : path) (output_dir : option path)
    (stack : list path) (cnt : counters) (w w' : W) (tr : list event) :
  walk fuel root_dir output_dir stack cnt w = (Out_of_fuel, w', tr) ->
  fuel <= count_events is_scan tr.
Proof.
  revert stack cnt w tr. induction fuel as [|fuel IH]; intros stack cnt w tr.
  - intros _. lia.
  - destruct stack as [|top stack]; [rewrite walk_nil; discriminate|].
    rewrite walk_cons.
    destruct (os_scandir w top) as [[dirs files]|].
    + unfold bind.
      pose proof (files_have_fuel root_dir output_dir top files cnt w) as Hf.
      destruct (process_files root_dir output_dir top files cnt w)
        as [[r1 w1] t1].
      destruct r1 as [cnt1|e|]; [|discriminate|exfalso; apply Hf; reflexivity].
      specialize (IH (map (fun d => join_path top [d]) dirs ++ stack) cnt1 w1).
      destruct (walk fuel root_dir output_dir _ cnt1 w1) as [[r2 w2] t2].
      intros [= -> <- <-]. specialize (IH _ eq_refl).
      count_trace. lia.
    + specialize (IH stack cnt w).
      destruct (walk fuel root_dir output_dir stack cnt w) as [[r2 w2] t2].
      intros [= -> <- <-]. specialize (IH _ eq_refl).
      count_trace. lia.
Qed.

(** A completed walk has read every [.cs] file it was shown. *)
Lemma walk_reads (fuel : nat) (root_dir : path) (output_dir : option path)
    (stack : list path) (cnt cnt' : counters) (w w' : W) (tr : list event) :
  walk fuel root_dir output_dir stack cnt w = (Done cnt', w', tr) ->
  count_events is_read tr = count_cs (walked_files tr).
Proof.
  revert stack cnt w tr. induction fuel as [|fuel IH]; intros stack cnt w tr.
  - destruct stack as [|top stack]; [|discriminate].
    intros [= <- <- <-]. reflexivity.
  - destruct stack as [|top stack].
    { rewrite walk_nil. intros [= <- <- <-]. reflexivity. }
    rewrite walk_cons.
    destruct (os_scandir w top) as [[dirs files]|].
    + unfold bind.
      pose proof (fun c' w' tr' =>
        @files_reads root_dir output_dir top files cnt c' w w' tr') as Hf.
      pose proof (files_not_walked root_dir output_dir top files cnt w) as Hn.
      destruct (process_files root_dir output_dir top files cnt w)
        as [[r1 w1] t1].
      destruct r1 as [cnt1|e|]; try discriminate.
      specialize (Hf _ _ _ eq_refl). cbn [snd] in Hn.
      specialize (IH (map (fun d => join_path top [d]) dirs ++ stack) cnt1 w1).
      destruct (walk fuel root_dir output_dir _ cnt1 w1) as [[r2 w2] t2].
      intros [= -> <- <-]. specialize (IH _ eq_refl).
      change (EvScan top (Some (dirs, files)) :: t1 ++ t2)
        with ([EvScan top (Some (dirs, files))] ++ t1 ++ t2).
      rewrite !walked_files_app, !count_cs_app, Hn.
      count_trace. cbn [walked_files flat_map]. rewrite app_nil_r.
      change (count_cs []) with 0. lia.
    + specialize (IH stack cnt w).
      destruct (walk fuel root_dir output_dir stack cnt w) as [[r2 w2] t2].
      intros [= -> <- <-]. specialize (IH _ eq_refl).
      count_trace. exact IH.
Qed.

(** ** The run *)

Lemma process_directory_eq (fuel : nat) (root_dir : path)
    (output_dir : option path) (w : W) :
  process_directory fuel root_dir output_dir w =
  if os_isdir w root_dir then
    let '(r, w', tr) := walk fuel root_dir output_dir [root_dir] (0, 0) w in
    match r with
    | Done cnt =>
        (Done tt, w',
         tr ++ [EvPrint (Total_found (fst cnt));
                EvPrint (Comments_removed (snd cnt))])
    | Raised e => (Raised e, w', tr)
    | Out_of_fuel => (Out_of_fuel, w', tr)
    end
  else (Done tt, w, [EvPrint (Directory_not_found root_dir)]).
Proof.
  unfold process_directory, bind, isdir, print.
  destruct (os_isdir w root_dir); [|reflexivity].
  cbn [negb app].
  destruct (walk fuel root_dir output_dir [root_dir] (0, 0) w) as [[r w'] tr].
  destruct r; reflexivity.
Qed.

(** A run that completes on a directory ends with its two summary lines,
    and the walk before them printed neither. *)
Lemma completed_run (fuel : nat) (root_dir : path) (output_dir : option path)
    (w w' : W) (tr : list event) :
  os_isdir w root_dir = true ->
  process_directory fuel root_dir output_dir w = (Done tt, w', tr) ->
  exists cnt tr0,
    walk fuel root_dir output_dir [root_dir] (0, 0) w = (Done cnt, w', tr0) /\
    tr = tr0 ++ [EvPrint (Total_found (fst cnt));
                 EvPrint (Comments_removed (snd cnt))].
Proof.
  intros Hdir. rewrite process_directory_eq, Hdir.
  destruct (walk fuel root_dir output_dir [root_dir] (0, 0) w) as [[r w1] tr0].
  destruct r as [cnt|e|]; try discriminate.
  intros [= <- <-]. exists cnt, tr0. split; reflexivity.
Qed.

(** The run stops for lack of fuel only after listing [fuel] directories. *)
Lemma run_out_of_fuel (fuel : nat) (root_dir : path) (output_dir : option path)
    (w w' : W) (tr : list event) :
  process_directory fuel root_dir output_dir w = (Out_of_fuel, w', tr) ->
  fuel <= count_events is_scan tr.
Proof.
  rewrite process_directory_eq.
  destruct (os_isdir w root_dir); [|discriminate].
  pose proof (fun w' tr =>
    @walk_out_of_fuel fuel root_dir output_dir [root_dir] (0, 0) w w' tr) as Ht.
  destruct (walk fuel root_dir output_dir [root_dir] (0, 0) w) as [[r w1] tr0].
  destruct r as [cnt|e|]; try discriminate.
  intros [= <- <-]. apply (Ht _ _ eq_refl).
Qed.

Lemma unchanged_reads (tr : list event) :
  (forall p content, In (EvRead p (inr content)) tr ->
                     remove_csharp_comments content = content) ->
  count_events is_changed_read tr = 0.
Proof.
  induction tr as [|e tr IH]; intros H; [reflexivity|].
  rewrite count_events_cons, IH.
  - destruct e as [| p [x|content] | | |]; try reflexivity.
    rewrite changed_read_false; [reflexivity|].
    apply (H p). left. reflexivity.
  - intros p content Hin. apply (H p). right. exact Hin.
Qed.

(** *** C6 *)

(** C6. The driver writes only when the stripped text differs from the text
    read.  One iteration on a file the stripper leaves as it is reads the
    file, prints its line and does nothing else, in place or mirrored: the
    world is the one before.  Every write and every creation of a directory
    an iteration attempts is for a file that was read and that the stripper
    changes, and goes to the file's target.  A run in which every text read
    is left as it is by the stripper attempts no write and no creation of a
    directory and leaves the world as it was. *)
Theorem writes_only_when_changed :
  (forall (root_dir : path) (output_dir : option path) (subdir : path)
          (filename : string) (cnt : counters) (w : W) (content : text),
      endswith filename ".cs" = true ->
      os_read w (join_path subdir [filename]) = inr content ->
      remove_csharp_comments content = content ->
      process_file root_dir output_dir subdir filename cnt w =
      (Done (fst cnt + 1, snd cnt), w,
       [EvRead (join_path subdir [filename]) (inr content);
        EvPrint (Processed (join_path subdir [filename]))])) /\
  (forall (root_dir : path) (output_dir : option path) (subdir : path)
          (filename : string) (cnt : counters) (w : W) (e : event),
      In e (snd (process_file root_dir output_dir subdir filename cnt w)) ->
      is_output e = true ->
      exists content,
        endswith filename ".cs" = true /\
        os_read w (join_path subdir [filename]) = inr content /\
        remove_csharp_comments content <> content /\
        ((exists r,
             e = EvWrite
                   (target root_dir output_dir (join_path subdir [filename]))
                   (remove_csharp_comments content) r) \/
         (exists r,
             output_dir <> None /\
             e = EvMakedirs
                   (dirname (target root_dir output_dir
                               (join_path subdir [filename]))) r))) /\
  (forall (fuel : nat) (root_dir : path) (output_dir : option path)
          (w w' : W) (r : outcome unit) (tr : list event),
      process_directory fuel root_dir output_dir w = (r, w', tr) ->
      (forall p content, In (EvRead p (inr content)) tr ->
                         remove_csharp_comments content = content) ->
      w' = w /\ count_events is_output tr = 0).
Proof.
  split; [|split].
  - intros root_dir output_dir subdir filename cnt w content Hcs Hr Heq.
    destruct (process_file_step root_dir output_dir subdir filename cnt w)
      as [Hcs'|e Hcs' Hr'|content' Hcs' Hr' Heq'|content' o w1 e _ Hr' Hne _ _
         |content' o w1 w2 r _ Hr' Hne _ _ _|content' w1 r _ Hr' Hne _ _];
      congruence.
  - intros root_dir output_dir subdir filename cnt w ev.
    destruct (process_file_step root_dir output_dir subdir filename cnt w)
      as [Hcs|e Hcs Hr|content Hcs Hr Heq|content o w1 e Hcs Hr Hne Ho Hm
         |content o w1 w2 r Hcs Hr Hne Ho Hm Hw|content w1 r Hcs Hr Hne Ho Hw];
      cbn [snd]; intros Hin Hout.
    + destruct Hin.
    + destruct Hin as [<-|[<-|[]]]; discriminate.
    + destruct Hin as [<-|[<-|[]]]; discriminate.
    + exists content. repeat (split; [assumption|]).
      destruct Hin as [<-|[<-|[]]]; [discriminate|].
      right. exists (Some e). split; [congruence|reflexivity].
    + exists content. repeat (split; [assumption|]).
      destruct Hin as [<-|[<-|[<-|Hin]]]; [discriminate| | |].
      * right. exists None. split; [congruence|reflexivity].
      * left. exists r. reflexivity.
      * apply in_app_or in Hin. destruct Hin as [Hin|[<-|[]]];
          [|discriminate].
        destruct r; [destruct Hin as [<-|[]]; discriminate|destruct Hin].
    + exists content. repeat (split; [assumption|]).
      destruct Hin as [<-|[<-|Hin]]; [discriminate| |].
      * left. exists r. rewrite Ho. reflexivity.
      * apply in_app_or in Hin. destruct Hin as [Hin|[<-|[]]];
          [|discriminate].
        destruct r; [destruct Hin as [<-|[]]; discriminate|destruct Hin].
  - intros fuel root_dir output_dir w w' r tr.
    rewrite process_directory_eq.
    destruct (os_isdir w root_dir).
    + pose proof (sound_walk fuel root_dir output_dir [root_dir] (0, 0) w)
        as Hs.
      destruct (walk fuel root_dir output_dir [root_dir] (0, 0) w)
        as [[r0 w0] tr0].
      destruct Hs as (_ & _ & Hw & _).
      destruct r0 as [cnt|e|]; intros [= <- <- <-] Hall.
      * apply unchanged_reads in Hall. revert Hall. count_trace.
        intros Hz. destruct Hw as [-> Ho]; [lia|]. split; [reflexivity|lia].
      * apply unchanged_reads in Hall. apply Hw. exact Hall.
      * apply unchanged_reads in Hall. apply Hw. exact Hall.
    + intros [= <- <- <-] _. split; reflexivity.
Qed.

(** *** C8 *)

(** C8. A file whose read fails is counted as scanned: the iteration adds
    one to the first counter, prints the failure and goes on.  In every run
    that completes on a directory, the total that is printed is the number
    of [.cs] names in the listings the walk took, which is the number of
    reads attempted: those that led to a [Processed] line and those that
    failed.  The bound [fuel] of the model stops a run only after that
    many directories have been listed. *)
Theorem scanned_count_includes_unreadable :
  (forall (root_dir : path) (output_dir : option path) (subdir : path)
          (filename : string) (cnt : counters) (w : W) (e : exn),
      endswith filename ".cs" = true ->
      os_read w (join_path subdir [filename]) = inl e ->
      process_file root_dir output_dir subdir filename cnt w =
      (Done (fst cnt + 1, snd cnt), w,
       [EvRead (join_path subdir [filename]) (inl e);
        EvPrint (Failed_to_read (join_path subdir [filename]) e)])) /\
  (forall (fuel : nat) (root_dir : path) (output_dir : option path)
          (w w' : W) (tr : list event),
      os_isdir w root_dir = true ->
      process_directory fuel root_dir output_dir w = (Done tt, w', tr) ->
      exists tr0 n,
        tr = tr0 ++ [EvPrint (Total_found (count_cs (walked_files tr0)));
                     EvPrint (Comments_removed n)] /\
        count_events is_summary tr0 = 0 /\
        count_cs (walked_files tr0) = count_events is_read tr0 /\
        count_events is_read tr0 =
        count_events is_processed tr0 + count_events is_failed_read tr0) /\
  (forall (fuel : nat) (root_dir : path) (output_dir : option path)
          (w w' : W) (tr : list event),
      process_directory fuel root_dir output_dir w = (Out_of_fuel, w', tr) ->
      fuel <= count_events is_scan tr).
Proof.
  split; [|split; [|exact run_out_of_fuel]].
  - intros root_dir output_dir subdir filename cnt w e Hcs Hr.
    destruct (process_file_step root_dir output_dir subdir filename cnt w)
      as [Hcs'|e' Hcs' Hr'|content' Hcs' Hr' Heq'|content' o w1 e' _ Hr' Hne _ _
         |content' o w1 w2 r _ Hr' Hne _ _ _|content' w1 r _ Hr' Hne _ _];
      congruence.
  - intros fuel root_dir output_dir w w' tr Hdir Hrun.
    destruct (completed_run _ _ _ _ Hdir Hrun) as (cnt & tr0 & Hwalk & ->).
    pose proof (sound_walk fuel root_dir output_dir [root_dir] (0, 0) w) as Hs.
    rewrite Hwalk in Hs. destruct Hs as (Hsum & _ & _ & Hd).
    destruct (Hd _ eq_refl) as (Hf & _ & Hsplit).
    apply walk_reads in Hwalk.
    exists tr0, (snd cnt).
    assert (Hn : fst cnt = count_cs (walked_files tr0))
      by (cbn [fst] in Hf; lia).
    rewrite Hn. split; [reflexivity|]. split; [exact Hsum|].
    split; [symmetry; exact Hwalk|exact Hsplit].
Qed.

(** *** C9 *)

(** C9. The second counter grows as soon as the stripped text differs from
    the text read, before the write: an iteration whose write raises, in
    place or mirrored, still adds one to it, prints the failure and the
    [Processed] line, and goes on.  In every run that completes on a
    directory the number printed as changed is the number of reads whose
    text the stripper changes, whatever became of the writes.  The bound
    [fuel] of the model stops a run only after that many directories have
    been listed. *)
Theorem changed_count_ignores_write_failure :
  (forall (root_dir subdir : path) (filename : string) (cnt : counters)
          (w w1 : W) (content : text) (e : exn),
      endswith filename ".cs" = true ->
      os_read w (join_path subdir [filename]) = inr content ->
      remove_csharp_comments content <> content ->
      os_write w (join_path subdir [filename])
        (remove_csharp_comments content) = (w1, Some e) ->
      process_file root_dir None subdir filename cnt w =
      (Done (fst cnt + 1, snd cnt + 1), w1,
       [EvRead (join_path subdir [filename]) (inr content);
        EvWrite (join_path subdir [filename])
          (remove_csharp_comments content) (Some e);
        EvPrint (Failed_to_write (join_path subdir [filename]) e);
        EvPrint (Processed (join_path subdir [filename]))])) /\
  (forall (root_dir output_dir subdir : path) (filename : string)
          (cnt : counters) (w w1 w2 : W) (content : text) (e : exn),
      let out_path :=
        join_path output_dir
          (relpath (join_path subdir [filename]) root_dir) in
      endswith filename ".cs" = true ->
      os_read w (join_path subdir [filename]) = inr content ->
      remove_csharp_comments content <> content ->
      os_makedirs w (dirname out_path) = (w1, None) ->
      os_write w1 out_path (remove_csharp_comments content) = (w2, Some e) ->
      process_file root_dir (Some output_dir) subdir filename cnt w =
      (Done (fst cnt + 1, snd cnt + 1), w2,
       [EvRead (join_path subdir [filename]) (inr content);
        EvMakedirs (dirname out_path) None;
        EvWrite out_path (remove_csharp_comments content) (Some e);
        EvPrint (Failed_to_write out_path e);
        EvPrint (Processed (join_path subdir [filename]))])) /\
  (forall (fuel : nat) (root_dir : path) (output_dir : option path)
          (w w' : W) (tr : list event),
      os_isdir w root_dir = true ->
      process_directory fuel root_dir output_dir w = (Done tt, w', tr) ->
      exists tr0 n,
        tr = tr0 ++ [EvPrint (Total_found n);
                     EvPrint (Comments_removed
                                (count_events is_changed_read tr0))] /\
        count_events is_summary tr0 = 0) /\
  (forall (fuel : nat) (root_dir : path) (output_dir : option path)
          (w w' : W) (tr : list event),
      process_directory fuel root_dir output_dir w = (Out_of_fuel, w', tr) ->
      fuel <= count_events is_scan tr).
Proof.
  split; [|split; [|split; [|exact run_out_of_fuel]]].
  - intros root_dir subdir filename cnt w w1 content e Hcs Hr Hne Hw.
    destruct (process_file_step root_dir None subdir filename cnt w)
      as [Hcs'|e' Hcs' Hr'|content' Hcs' Hr' Heq'|content' o w1' e' _ Hr' _ Ho _
         |content' o w1' w2' r _ Hr' _ Ho _ _|content' w1' r _ Hr' _ _ Hw'];
      try congruence.
    assert (content' = content) by congruence. subst content'.
    rewrite Hw in Hw'. injection Hw' as <- <-. reflexivity.
  - intros root_dir output_dir subdir filename cnt w w1 w2 content e out_path
      Hcs Hr Hne Hm Hw.
    destruct (process_file_step root_dir (Some output_dir) subdir filename
                cnt w)
      as [Hcs'|e' Hcs' Hr'|content' Hcs' Hr' Heq'
         |content' o w1' e' _ Hr' _ Ho Hm'
         |content' o w1' w2' r _ Hr' _ Ho Hm' Hw'
         |content' w1' r _ Hr' _ Ho Hw'];
      try congruence.
    + assert (content' = content) by congruence. subst content'.
      cbn [target] in Hm'. fold out_path in Hm'. congruence.
    + assert (content' = content) by congruence. subst content'.
      cbn [target] in *. fold out_path in Hm', Hw' |- *.
      rewrite Hm in Hm'. injection Hm' as <-.
      rewrite Hw in Hw'. injection Hw' as <- <-. reflexivity.
  - intros fuel root_dir output_dir w w' tr Hdir Hrun.
    destruct (completed_run _ _ _ _ Hdir Hrun) as (cnt & tr0 & Hwalk & ->).
    pose proof (sound_walk fuel root_dir output_dir [root_dir] (0, 0) w) as Hs.
    rewrite Hwalk in Hs. destruct Hs as (Hsum & _ & _ & Hd).
    destruct (Hd _ eq_refl) as (_ & Hp & _).
    exists tr0, (fst cnt). cbn [snd] in Hp. rewrite Hp.
    split; [reflexivity|exact Hsum].
Qed.

(** ** Further properties of the driver *)

Lemma common_prefix_app (root rel : path) :
  common_prefix root (root ++ rel) = length root.
Proof.
  induction root as [|a root IH]; [destruct rel; reflexivity|].
  simpl. rewrite String.eqb_refl, IH. reflexivity.
Qed.

Lemma relpath_under (root rel : path) : relpath (root ++ rel) root = rel.
Proof.
  unfold relpath. rewrite common_prefix_app, Nat.sub_diag. simpl.
  induction root as [|a root IH]; [reflexivity|exact IH].
Qed.

Lemma target_under (root_dir : path) (output_dir : option path)
    (sub : path) (filename : string) :
  target root_dir output_dir (join_path (root_dir ++ sub) [filename]) =
  match output_dir with
  | Some o => o ++ sub ++ [filename]
  | None => root_dir ++ sub ++ [filename]
  end.
Proof.
  unfold target, join_path. rewrite <- app_assoc.
  destruct output_dir as [o|]; [|reflexivity].
  rewrite relpath_under. reflexivity.
Qed.

Lemma dirname_target (root_dir o sub : path) (filename : string) :
  dirname (target root_dir (Some o) (join_path (root_dir ++ sub) [filename]))
  = o ++ sub.
Proof.
  rewrite target_under. unfold dirname.
  rewrite !app_assoc. apply removelast_last.
Qed.

Lemma file_events (root_dir : path) (output_dir : option path)
    (sub : path) (filename : string) (cnt : counters) (w : W) (e : event) :
  let tr :=
    snd (process_file root_dir output_dir (root_dir ++ sub) filename cnt w) in
  In e tr ->
  match e with
  | EvScan _ _ => False
  | EvRead p _ =>
      p = root_dir ++ sub ++ [filename] /\ endswith filename ".cs" = true
  | EvWrite q t _ =>
      exists content,
        In (EvRead (root_dir ++ sub ++ [filename]) (inr content)) tr /\
        t = remove_csharp_comments content /\ t <> content /\
        q = match output_dir with
            | Some o => o ++ sub ++ [filename]
            | None => root_dir ++ sub ++ [filename]
            end
  | EvMakedirs d _ => exists o, output_dir = Some o /\ d = o ++ sub
  | EvPrint _ => True
  end.
Proof.
  assert (Hp : join_path (root_dir ++ sub) [filename]
               = root_dir ++ sub ++ [filename])
    by (unfold join_path; rewrite <- app_assoc; reflexivity).
  pose proof (target_under root_dir output_dir sub filename) as Ht.
  destruct (process_file_step root_dir output_dir (root_dir ++ sub) filename
              cnt w)
    as [Hcs|x Hcs Hr|content Hcs Hr Heq|content o w1 x Hcs Hr Hne Ho Hm
       |content o w1 w2 r Hcs Hr Hne Ho Hm Hw|content w1 r Hcs Hr Hne Ho Hw];
    cbn [snd]; intros Hin.
  - destruct Hin.
  - destruct Hin as [<-|[<-|[]]]; [split; assumption|exact I].
  - destruct Hin as [<-|[<-|[]]]; [split; assumption|exact I].
  - destruct Hin as [<-|[<-|[]]]; [split; assumption|].
    exists o. split; [exact Ho|]. subst output_dir. apply dirname_target.
  - destruct Hin as [<-|[<-|[<-|Hin]]].
    + split; assumption.
    + exists o. split; [exact Ho|]. subst output_dir. apply dirname_target.
    + exists content. split; [left; rewrite Hp; reflexivity|].
      split; [reflexivity|]. split; [exact Hne|]. exact Ht.
    + apply in_app_or in Hin. destruct Hin as [Hin|[<-|[]]]; [|exact I].
      destruct r; [destruct Hin as [<-|[]]; exact I|destruct Hin].
  - destruct Hin as [<-|[<-|Hin]].
    + split; assumption.
    + exists content. split; [left; rewrite Hp; reflexivity|].
      split; [reflexivity|]. split; [exact Hne|]. rewrite Ho. exact Hp.
    + apply in_app_or in Hin. destruct Hin as [Hin|[<-|[]]]; [|exact I].
      destruct r; [destruct Hin as [<-|[]]; exact I|destruct Hin].
Qed.

Lemma from_tree_mono (root_dir : path) (output_dir : option path)
    (t t' : list event) (e : event) :
  (forall x, In x t -> In x t') ->
  from_tree root_dir output_dir t e -> from_tree root_dir output_dir t' e.
Proof.
  intros Hsub. destruct e as [top r|p r|d r|q x r|l]; cbn [from_tree]; auto.
  intros (sub & f & content & Hin & H). exists sub, f, content.
  split; [apply Hsub; exact Hin|exact H].
Qed.

Lemma tree_trace_app (root_dir : path) (output_dir : option path)
    (t1 t2 : list event) :
  tree_trace root_dir output_dir t1 ->
  tree_trace root_dir output_dir t2 ->
  tree_trace root_dir output_dir (t1 ++ t2).
Proof.
  intros H1 H2 e Hin. apply in_app_or in Hin. destruct Hin as [Hin|Hin].
  - apply (@from_tree_mono root_dir output_dir t1); [|apply H1; exact Hin].
    intros x Hx. apply in_or_app. left. exact Hx.
  - apply (@from_tree_mono root_dir output_dir t2); [|apply H2; exact Hin].
    intros x Hx. apply in_or_app. right. exact Hx.
Qed.

Lemma tree_file (root_dir : path) (output_dir : option path)
    (sub : path) (filename : string) (cnt : counters) (w : W) :
  tree_trace root_dir output_dir
    (snd (process_file root_dir output_dir (root_dir ++ sub) filename cnt w)).
Proof.
  intros e Hin. pose proof (file_events _ _ _ _ _ _ _ Hin) as H.
  destruct e as [top r|p r|d r|q x r|l]; cbn [from_tree].
  - destruct H.
  - exists sub, filename. exact H.
  - destruct H as (o & Ho & Hd). exists o, sub. split; assumption.
  - destruct H as (content & H). exists sub, filename, content. exact H.
  - exact I.
Qed.

Lemma tree_files (root_dir : path) (output_dir : option path)
    (sub : path) (files : list string) (cnt : counters) (w : W) :
  tree_trace root_dir output_dir
    (snd (process_files root_dir output_dir (root_dir ++ sub) files cnt w)).
Proof.
  revert cnt w. induction files as [|filename files IH]; intros cnt w.
  - intros e [].
  - cbn [process_files]. unfold bind.
    pose proof (tree_file root_dir output_dir sub filename cnt w) as Hf.
    destruct (process_file root_dir output_dir (root_dir ++ sub) filename
                cnt w) as [[r w1] t1].
    destruct r as [cnt1|x|]; try exact Hf.
    specialize (IH cnt1 w1).
    destruct (process_files root_dir output_dir (root_dir ++ sub) files
                cnt1 w1) as [[r2 w2] t2].
    cbn [snd] in *. apply tree_trace_app; assumption.
Qed.

Lemma tree_scan (root_dir : path) (output_dir : option path)
    (sub : path) (x : option (list string * list string))
    (tr : list event) :
  tree_trace root_dir output_dir tr ->
  tree_trace root_dir output_dir (EvScan (root_dir ++ sub) x :: tr).
Proof.
  intros H. change (EvScan (root_dir ++ sub) x :: tr)
    with ([EvScan (root_dir ++ sub) x] ++ tr).
  apply tree_trace_app; [|exact H].
  intros e [<-|[]]. exists sub. reflexivity.
Qed.

Lemma tree_walk (fuel : nat) (root_dir : path) (output_dir : option path)
    (stack : list path) (cnt : counters) (w : W) :
  Forall (fun p => exists sub, p = root_dir ++ sub) stack ->
  tree_trace root_dir output_dir
    (snd (walk fuel root_dir output_dir stack cnt w)).
Proof.
  revert stack cnt w. induction fuel as [|fuel IH]; intros stack cnt w Hst.
  - destruct stack; intros e [].
  - destruct stack as [|top stack]; [intros e []|].
    rewrite walk_cons.
    inversion Hst as [|? ? (sub & ->) Hrest]; subst.
    destruct (os_scandir w (root_dir ++ sub)) as [[dirs files]|].
    + unfold bind.
      pose proof (tree_files root_dir output_dir sub files cnt w) as Hf.
      destruct (process_files root_dir output_dir (root_dir ++ sub) files
                  cnt w) as [[r1 w1] t1].
      cbn [snd] in Hf.
      destruct r1 as [cnt1|x|]; try (apply tree_scan; exact Hf).
      assert (Hst' : Forall (fun p => exists sub0, p = root_dir ++ sub0)
                (map (fun d => join_path (root_dir ++ sub) [d]) dirs
                 ++ stack)).
      { apply Forall_app. split; [|exact Hrest].
        apply Forall_forall. intros p Hin. apply in_map_iff in Hin.
        destruct Hin as (d & <- & _). exists (sub ++ [d]).
        unfold join_path. rewrite <- app_assoc. reflexivity. }
      specialize (IH _ cnt1 w1 Hst').
      destruct (walk fuel root_dir output_dir _ cnt1 w1) as [[r2 w2] t2].
      cbn [snd] in *. apply tree_scan. apply tree_trace_app; assumption.
    + specialize (IH stack cnt w Hrest).
      destruct (walk fuel root_dir output_dir stack cnt w) as [[r2 w2] t2].
      cbn [snd] in *. apply tree_scan. exact IH.
Qed.

Lemma tree_run (fuel : nat) (root_dir : path) (output_dir : option path)
    (w : W) :
  tree_trace root_dir output_dir
    (snd (process_directory fuel root_dir output_dir w)).
Proof.
  rewrite process_directory_eq.
  destruct (os_isdir w root_dir).
  2:{ intros e [<-|[]]. exact I. }
  assert (Hst : Forall (fun p => exists sub, p = root_dir ++ sub) [root_dir]).
  { constructor; [|constructor]. exists []. symmetry. apply app_nil_r. }
  pose proof (@tree_walk fuel root_dir output_dir [root_dir] (0, 0) w Hst)
    as Hw.
  destruct (walk fuel root_dir output_dir [root_dir] (0, 0) w)
    as [[r w'] tr].
  cbn [snd] in *. destruct r as [cnt|x|]; try exact Hw.
  apply tree_trace_app; [exact Hw|].
  intros e [<-|[<-|[]]]; exact I.
Qed.


Lemma count_changed_le (tr : list event) :
  count_events is_changed_read tr <= count_events is_read tr.
Proof.
  induction tr as [|e tr IH]; [reflexivity|].
  rewrite !count_events_cons.
  destruct e as [| p [x|content] | | |]; cbn [is_changed_read is_read];
    try lia.
  destruct (list_eq_dec ascii_dec (remove_csharp_comments content) content);
    lia.
Qed.

(** X6. In mirror mode an iteration on a changed file
    [root_dir/sub/filename] first asks for the directory [output_dir/sub]
    and, when that succeeds, writes the stripped text to
    [output_dir/sub/filename], in this order and in the world the creation
    left; it counts the file as found and changed whether or not the write
    succeeds.  For a file right under the root the directory asked for is
    the output directory itself. *)
Theorem mirrored_file_path :
  (forall (root_dir output_dir sub : path) (filename : string)
          (cnt : counters) (w w1 w2 : W) (content : text) (r : option exn),
      endswith filename ".cs" = true ->
      os_read w (root_dir ++ sub ++ [filename]) = inr content ->
      remove_csharp_comments content <> content ->
      os_makedirs w (output_dir ++ sub) = (w1, None) ->
      os_write w1 (output_dir ++ sub ++ [filename])
        (remove_csharp_comments content) = (w2, r) ->
      process_file root_dir (Some output_dir) (root_dir ++ sub) filename
        cnt w =
      (Done (fst cnt + 1, snd cnt + 1), w2,
       EvRead (root_dir ++ sub ++ [filename]) (inr content) ::
       EvMakedirs (output_dir ++ sub) None ::
       EvWrite (output_dir ++ sub ++ [filename])
         (remove_csharp_comments content) r ::
       write_report (output_dir ++ sub ++ [filename]) r ++
       [EvPrint (Processed (root_dir ++ sub ++ [filename]))])) /\
  (forall (root_dir output_dir : path) (filename : string)
          (cnt : counters) (w w1 w2 : W) (content : text) (r : option exn),
      endswith filename ".cs" = true ->
      os_read w (root_dir ++ [filename]) = inr content ->
      remove_csharp_comments content <> content ->
      os_makedirs w output_dir = (w1, None) ->
      os_write w1 (output_dir ++ [filename])
        (remove_csharp_comments content) = (w2, r) ->
      process_file root_dir (Some output_dir) root_dir filename cnt w =
      (Done (fst cnt + 1, snd cnt + 1), w2,
       EvRead (root_dir ++ [filename]) (inr content) ::
       EvMakedirs output_dir None ::
       EvWrite (output_dir ++ [filename])
         (remove_csharp_comments content) r ::
       write_report (output_dir ++ [filename]) r ++
       [EvPrint (Processed (root_dir ++ [filename]))])).
Proof.
  assert (Hgen : forall (root_dir output_dir sub : path) (filename : string)
          (cnt : counters) (w w1 w2 : W) (content : text) (r : option exn),
      endswith filename ".cs" = true ->
      os_read w (root_dir ++ sub ++ [filename]) = inr content ->
      remove_csharp_comments content <> content ->
      os_makedirs w (output_dir ++ sub) = (w1, None) ->
      os_write w1 (output_dir ++ sub ++ [filename])
        (remove_csharp_comments content) = (w2, r) ->
      process_file root_dir (Some output_dir) (root_dir ++ sub) filename
        cnt w =
      (Done (fst cnt + 1, snd cnt + 1), w2,
       EvRead (root_dir ++ sub ++ [filename]) (inr content) ::
       EvMakedirs (output_dir ++ sub) None ::
       EvWrite (output_dir ++ sub ++ [filename])
         (remove_csharp_comments content) r ::
       write_report (output_dir ++ sub ++ [filename]) r ++
       [EvPrint (Processed (root_dir ++ sub ++ [filename]))])).
  { intros root_dir output_dir sub filename cnt w w1 w2 content r
      Hcs Hr Hne Hm Hw.
    assert (Hp : join_path (root_dir ++ sub) [filename]
                 = root_dir ++ sub ++ [filename])
      by (unfold join_path; rewrite <- app_assoc; reflexivity).
    pose proof (target_under root_dir (Some output_dir) sub filename) as Ht.
    pose proof (dirname_target root_dir output_dir sub filename) as Hd.
    destruct (process_file_step root_dir (Some output_dir) (root_dir ++ sub)
                filename cnt w)
      as [Hcs'|e' Hcs' Hr'|content' Hcs' Hr' Heq'
         |content' o w1' e' _ Hr' _ Ho Hm'
         |content' o w1' w2' r' _ Hr' _ Ho Hm' Hw'
         |content' w1' r' _ Hr' _ Ho Hw'];
      rewrite ?Hp, ?Ht, ?Hd in *; congruence. }
  split; [exact Hgen|].
  intros root_dir output_dir filename cnt w w1 w2 content r Hcs Hr Hne Hm Hw.
  pose proof (Hgen root_dir output_dir [] filename cnt w w1 w2 content r)
    as H.
  cbn [app] in H. rewrite !app_nil_r in H. apply H; assumption.
Qed.

(** X7. A run lists only directories under its root and opens for reading
    only files under its root whose name ends in [.cs]. *)
Theorem reads_stay_in_tree (fuel : nat) (root_dir : path)
    (output_dir : option path) (w : W) :
  let tr := snd (process_directory fuel root_dir output_dir w) in
  (forall top x, In (EvScan top x) tr -> exists sub, top = root_dir ++ sub) /\
  (forall p r, In (EvRead p r) tr ->
               exists sub f, p = root_dir ++ sub ++ [f] /\
                             endswith f ".cs" = true).
Proof.
  intros tr. pose proof (tree_run fuel root_dir output_dir w) as H.
  fold tr in H. split.
  - intros top x Hin. exact (H _ Hin).
  - intros p r Hin. exact (H _ Hin).
Qed.


Lemma failures_reported_app (t1 t2 : list event) :
  failures_reported t1 -> failures_reported t2 ->
  failures_reported (t1 ++ t2).
Proof.
  induction t1 as [|e t1 IH]; intros H1 H2; [exact H2|].
  destruct H1 as [He H1]. cbn [app failures_reported].
  split; [|exact (IH H1 H2)].
  destruct e as [| p [x|c] | | q t [x|] |]; try exact I;
    destruct He as (l & ->); exists (l ++ t2); reflexivity.
Qed.

Lemma failures_reported_split (l1 l2 : list event) (e : event) :
  failures_reported (l1 ++ e :: l2) ->
  match e with
  | EvRead p (inl x) => exists l, l2 = EvPrint (Failed_to_read p x) :: l
  | EvWrite p _ (Some x) => exists l, l2 = EvPrint (Failed_to_write p x) :: l
  | _ => True
  end.
Proof.
  induction l1 as [|a l1 IH]; intros H.
  - destruct H as [H _]. exact H.
  - destruct H as [_ H]. exact (IH H).
Qed.

Lemma written_after_read_mono (seen seen' tr : list event) :
  (forall x, In x seen -> In x seen') ->
  written_after_read seen tr -> written_after_read seen' tr.
Proof.
  revert seen seen'. induction tr as [|e tr IH]; intros seen seen' Hsub H;
    [exact I|].
  destruct H as [He H]. split.
  - destruct e as [| | | q t r |]; try exact I.
    destruct He as (content & Hin). exists content. apply Hsub. exact Hin.
  - apply (IH (e :: seen)); [|exact H].
    intros x [->|Hx]; [left; reflexivity|right; apply Hsub; exact Hx].
Qed.

Lemma written_after_read_app (seen t1 t2 : list event) :
  written_after_read seen t1 -> written_after_read [] t2 ->
  written_after_read seen (t1 ++ t2).
Proof.
  revert seen. induction t1 as [|e t1 IH]; intros seen H1 H2.
  - apply (@written_after_read_mono []); [intros x []|exact H2].
  - destruct H1 as [He H1]. split; [exact He|]. apply IH; assumption.
Qed.

Lemma written_after_read_split (seen l1 l2 : list event) (q : path)
    (t : text) (r : option exn) :
  written_after_read seen (l1 ++ EvWrite q t r :: l2) ->
  exists content, In (EvRead q (inr content)) (l1 ++ seen).
Proof.
  revert seen. induction l1 as [|a l1 IH]; intros seen H.
  - destruct H as [H _]. exact H.
  - destruct H as [_ H]. destruct (IH _ H) as (content & Hin).
    exists content. apply in_app_or in Hin. cbn [app].
    destruct Hin as [Hin|[->|Hin]].
    + right. apply in_or_app. left. exact Hin.
    + left. reflexivity.
    + right. apply in_or_app. right. exact Hin.
Qed.

(** A property of traces that holds of the empty trace, of a listing, of a
    print and of every iteration, and that is kept by putting traces one
    after the other, holds of the trace of every run. *)
Lemma run_trace_ind (P : list event -> Prop) (root_dir : path)
    (output_dir : option path) :
  P [] ->
  (forall t1 t2, P t1 -> P t2 -> P (t1 ++ t2)) ->
  (forall top x, P [EvScan top x]) ->
  (forall l, P [EvPrint l]) ->
  (forall subdir filename cnt w,
      P (snd (process_file root_dir output_dir subdir filename cnt w))) ->
  forall fuel w, P (snd (process_directory fuel root_dir output_dir w)).
Proof.
  intros Hnil Happ Hscan Hprint Hfile.
  assert (Hfiles : forall subdir files cnt w,
    P (snd (process_files root_dir output_dir subdir files cnt w))).
  { intros subdir files. induction files as [|filename files IH];
      intros cnt w; [exact Hnil|].
    cbn [process_files]. unfold bind.
    pose proof (Hfile subdir filename cnt w) as Hf.
    destruct (process_file root_dir output_dir subdir filename cnt w)
      as [[r w1] t1].
    destruct r as [cnt1|x|]; try exact Hf.
    specialize (IH cnt1 w1).
    destruct (process_files root_dir output_dir subdir files cnt1 w1)
      as [[r2 w2] t2].
    cbn [snd] in *. apply Happ; assumption. }
  assert (Hwalk : forall fuel stack cnt w,
    P (snd (walk fuel root_dir output_dir stack cnt w))).
  { induction fuel as [|fuel IH]; intros stack cnt w.
    - destruct stack; exact Hnil.
    - destruct stack as [|top stack]; [exact Hnil|].
      rewrite walk_cons.
      destruct (os_scandir w top) as [[dirs files]|] eqn:Hls.
      + unfold bind.
        pose proof (Hfiles top files cnt w) as Hf.
        destruct (process_files root_dir output_dir top files cnt w)
          as [[r1 w1] t1].
        cbn [snd] in Hf.
        destruct r1 as [cnt1|x|];
          try (cbn [snd]; apply (Happ [_]); [apply Hscan|exact Hf]).
        specialize (IH (map (fun d => join_path top [d]) dirs ++ stack)
                      cnt1 w1).
        destruct (walk fuel root_dir output_dir _ cnt1 w1) as [[r2 w2] t2].
        cbn [snd] in *. apply (Happ [_]); [apply Hscan|].
        apply Happ; assumption.
      + specialize (IH stack cnt w).
        destruct (walk fuel root_dir output_dir stack cnt w) as [[r2 w2] t2].
        cbn [snd] in *. apply (Happ [_]); [apply Hscan|exact IH]. }
  intros fuel w. rewrite process_directory_eq.
  destruct (os_isdir w root_dir); [|apply Hprint].
  specialize (Hwalk fuel [root_dir] (0, 0) w).
  destruct (walk fuel root_dir output_dir [root_dir] (0, 0) w)
    as [[r w'] tr].
  cbn [snd] in *. destruct r as [cnt|x|]; try exact Hwalk.
  apply Happ; [exact Hwalk|].
  apply (Happ [_] [_]); apply Hprint.
Qed.

Lemma file_failures_reported (root_dir : path) (output_dir : option path)
    (subdir : path) (filename : string) (cnt : counters) (w : W) :
  failures_reported
    (snd (process_file root_dir output_dir subdir filename cnt w)).
Proof.
  destruct (process_file_step root_dir output_dir subdir filename cnt w)
    as [Hcs|x Hcs Hr|content Hcs Hr Heq|content o w1 x Hcs Hr Hne Ho Hm
       |content o w1 w2 r Hcs Hr Hne Ho Hm Hw|content w1 r Hcs Hr Hne Ho Hw];
    cbn [snd failures_reported]; try destruct r as [x|];
    cbn [write_report app failures_reported];
    repeat split; eexists; reflexivity.
Qed.

Lemma file_written_after_read (root_dir subdir : path) (filename : string)
    (cnt : counters) (w : W) :
  written_after_read []
    (snd (process_file root_dir None subdir filename cnt w)).
Proof.
  destruct (process_file_step root_dir None subdir filename cnt w)
    as [Hcs|x Hcs Hr|content Hcs Hr Heq|content o w1 x Hcs Hr Hne Ho Hm
       |content o w1 w2 r Hcs Hr Hne Ho Hm Hw|content w1 r Hcs Hr Hne Ho Hw];
    try discriminate Ho;
    cbn [snd written_after_read]; try destruct r as [x|];
    cbn [write_report app written_after_read]; repeat split.
  all: exists content; left; reflexivity.
Qed.

(** X9. In place, no directory is ever created; a file is written only
    after a text has been read from the same path earlier in the run; and
    every read and every write that raises is followed at once by the print
    of its error line: the exception is caught where it occurs. *)
Theorem in_place_run (fuel : nat) (root_dir : path) (w : W) :
  let tr := snd (process_directory fuel root_dir None w) in
  (forall d r, ~ In (EvMakedirs d r) tr) /\
  (forall l1 q t r l2,
      tr = l1 ++ EvWrite q t r :: l2 ->
      exists content, In (EvRead q (inr content)) l1) /\
  (forall l1 p x l2,
      tr = l1 ++ EvRead p (inl x) :: l2 ->
      exists l3, l2 = EvPrint (Failed_to_read p x) :: l3) /\
  (forall l1 p t x l2,
      tr = l1 ++ EvWrite p t (Some x) :: l2 ->
      exists l3, l2 = EvPrint (Failed_to_write p x) :: l3).
Proof.
  intros tr.
  pose proof (tree_run fuel root_dir None w) as Htree. fold tr in Htree.
  assert (Hw : written_after_read [] tr).
  { apply (@run_trace_ind (written_after_read []) root_dir None).
    - exact I.
    - intros t1 t2. apply written_after_read_app.
    - intros top x. split; exact I.
    - intros l. split; exact I.
    - intros subdir filename cnt w0. apply file_written_after_read. }
  assert (Hf : failures_reported tr).
  { apply (@run_trace_ind failures_reported root_dir None).
    - exact I.
    - exact failures_reported_app.
    - intros top x. split; exact I.
    - intros l. split; exact I.
    - intros subdir filename cnt w0. apply file_failures_reported. }
  split; [|split; [|split]].
  - intros d r Hin. destruct (Htree _ Hin) as (o & sub & Ho & _).
    discriminate.
  - intros l1 q t r l2 E. rewrite E in Hw.
    destruct (written_after_read_split _ _ _ _ _ _ Hw) as (content & Hin).
    rewrite app_nil_r in Hin. exists content. exact Hin.
  - intros l1 p x l2 E. rewrite E in Hf.
    exact (failures_reported_split _ _ _ Hf).
  - intros l1 p t x l2 E. rewrite E in Hf.
    exact (failures_reported_split _ _ _ Hf).
Qed.

(** X10. When the root is not a directory the run prints the one error
    line and does nothing else.  The two summary lines are printed exactly
    when the root is a directory and the walk has come to its end. *)
Theorem summary_only_after_walk :
  (forall (fuel : nat) (root_dir : path) (output_dir : option path) (w : W),
      os_isdir w root_dir = false ->
      process_directory fuel root_dir output_dir w =
      (Done tt, w, [EvPrint (Directory_not_found root_dir)])) /\
  (forall (fuel : nat) (root_dir : path) (output_dir : option path) (w : W),
      let res := process_directory fuel root_dir output_dir w in
      count_events is_summary (snd res) =
      if os_isdir w root_dir then
        match fst (fst res) with Done _ => 2 | _ => 0 end
      else 0).
Proof.
  split.
  - intros fuel root_dir output_dir w Hdir.
    rewrite process_directory_eq, Hdir. reflexivity.
  - intros fuel root_dir output_dir w res. subst res.
    rewrite process_directory_eq.
    destruct (os_isdir w root_dir); [|reflexivity].
    pose proof (sound_walk fuel root_dir output_dir [root_dir] (0, 0) w)
      as Hs.
    destruct (walk fuel root_dir output_dir [root_dir] (0, 0) w)
      as [[r w'] tr].
    destruct Hs as (Hsum & _).
    destruct r as [cnt|e|]; cbn [fst snd]; try exact Hsum.
    count_trace. lia.
Qed.

(** X11. In the summary of a completed run the number of changed files is
    never above the number of files found. *)
Theorem changed_at_most_found (fuel : nat) (root_dir : path)
    (output_dir : option path) (w w' : W) (tr : list event) :
  os_isdir w root_dir = true ->
  process_directory fuel root_dir output_dir w = (Done tt, w', tr) ->
  exists tr0 n m,
    tr = tr0 ++ [EvPrint (Total_found n); EvPrint (Comments_removed m)] /\
    m <= n.
Proof.
  intros Hdir Hrun.
  destruct (completed_run _ _ _ _ Hdir Hrun) as (cnt & tr0 & Hwalk & ->).
  pose proof (sound_walk fuel root_dir output_dir [root_dir] (0, 0) w) as Hs.
  rewrite Hwalk in Hs. destruct Hs as (_ & _ & _ & Hd).
  destruct (Hd _ eq_refl) as (Hf & Hp & _).
  exists tr0, (fst cnt), (snd cnt). split; [reflexivity|].
  pose proof (count_changed_le tr0). cbn [fst snd] in *. lia.
Qed.

(** X12. The script creates the output directory before the root is looked
    at: when that fails the exception ends the script and nothing is
    listed or read; when it succeeds the directory is there even if the
    root turns out not to be a directory; in every other respect the script
    is the run of [process_directory].  Without an output directory the
    script is the in-place run. *)
Theorem main_prepares_output :
  (forall (fuel : nat) (directory output : path) (w w1 : W) (e : exn),
      os_makedirs w output = (w1, Some e) ->
      main fuel directory (Some output) w =
      (Raised e, w1, [EvMakedirs output (Some e)])) /\
  (forall (fuel : nat) (directory output : path) (w w1 : W),
      os_makedirs w output = (w1, None) ->
      let res := process_directory fuel directory (Some output) w1 in
      main fuel directory (Some output) w =
      (fst (fst res), snd (fst res), EvMakedirs output None :: snd res)) /\
  (forall (fuel : nat) (directory output : path) (w w1 : W),
      os_makedirs w output = (w1, None) ->
      os_isdir w1 directory = false ->
      main fuel directory (Some output) w =
      (Done tt, w1,
       [EvMakedirs output None; EvPrint (Directory_not_found directory)])) /\
  (forall (fuel : nat) (directory : path) (w : W),
      main fuel directory None w = process_directory fuel directory None w).
Proof.
  assert (Hok : forall fuel directory output w w1,
    os_makedirs w output = (w1, None) ->
    main fuel directory (Some output) w =
    (fst (fst (process_directory fuel directory (Some output) w1)),
     snd (fst (process_directory fuel directory (Some output) w1)),
     EvMakedirs output None ::
       snd (process_directory fuel directory (Some output) w1))).
  { intros fuel directory output w w1 Hm.
    unfold main, bind, makedirs. rewrite Hm.
    destruct (process_directory fuel directory (Some output) w1)
      as [[r w2] tr]. reflexivity. }
  split; [|split; [|split]].
  - intros fuel directory output w w1 e Hm.
    unfold main, bind, makedirs. rewrite Hm. reflexivity.
  - intros fuel directory output w w1 Hm res. apply Hok. exact Hm.
  - intros fuel directory output w w1 Hm Hdir.
    rewrite (Hok _ _ _ _ _ Hm), process_directory_eq, Hdir. reflexivity.
  - intros fuel directory w. unfold main, bind, ret.
    destruct (process_directory fuel directory None w) as [[r w2] tr].
    reflexivity.
Qed.

End DriverFacts.

(** ** Runs on the small file system *)

Lemma writes_only_when_changed_witness :
  process_file ["R"%string] (Some ["O"%string]) ["R"%string] "b.cs" (1, 1)
    clean_fs =
  (Done (2, 1), clean_fs,
   [EvRead ["R"; "b.cs"]%string (inr (txt "b();"));
    EvPrint (Processed ["R"; "b.cs"]%string)]) /\
  (exists content,
      Fs.read sample_fs ["R"; "a.cs"]%string = inr content /\
      remove_csharp_comments content <> content) /\
  snd (fst (process_directory 5 ["R"%string] (Some ["O"%string]) clean_fs)) =
  clean_fs /\
  count_events is_output
    (snd (process_directory 5 ["R"%string] (Some ["O"%string]) clean_fs)) = 0.
Proof.
  split; [|split].
  - apply (proj1 (@writes_only_when_changed Fs.t fs_os)
             ["R"%string] (Some ["O"%string]) ["R"%string] "b.cs"%string
             (1, 1) clean_fs (txt "b();")).
    + vm_compute. reflexivity.
    + vm_compute. reflexivity.
    + vm_compute. reflexivity.
  - destruct (proj1 (proj2 (@writes_only_when_changed Fs.t fs_os))
                ["R"%string] (Some ["O"%string]) ["R"%string] "a.cs"%string
                (0, 0) sample_fs
                (EvWrite ["O"; "a.cs"]%string (txt "a(); ") None))
      as (content & _ & Hr & Hne & _).
    + vm_compute. tauto.
    + reflexivity.
    + exists content. split; [exact Hr|exact Hne].
  - apply (proj2 (proj2 (@writes_only_when_changed Fs.t fs_os))
             5 ["R"%string] (Some ["O"%string]) clean_fs
             (snd (fst (process_directory 5 ["R"%string] (Some ["O"%string])
                          clean_fs)))
             (fst (fst (process_directory 5 ["R"%string] (Some ["O"%string])
                          clean_fs)))).
    + vm_compute. reflexivity.
    + intros p content Hin. vm_compute in Hin.
      destruct Hin as [H|[H|[H|[H|[H|[H|[H|[H|[]]]]]]]]];
        try discriminate H; injection H as _ <-; vm_compute; reflexivity.
Defined.

(** C7. The claim fails on the code: the directory of the mirrored file is
    created outside every handler.  On a tree whose mirror has a regular
    file where a directory is needed, the run is left by the exception in
    the middle of the walk: no summary is printed and [/R/z/G.cs] is never
    read.  The same tree without the file in the way is walked to the end,
    and in place the run completes on both. *)
Theorem makedirs_failure_aborts_run :
  let res := process_directory 10 ["R"%string] (Some ["O"%string]) blocked_fs in
  fst (fst res) = Raised FileExistsError /\
  count_events is_summary (snd res) = 0 /\
  last (snd res) (EvPrint (Total_found 0)) =
    EvMakedirs ["O"; "sub"]%string (Some FileExistsError) /\
  existsb (reads_path ["R"; "z"; "G.cs"]%string) (snd res) = false /\
  fst (fst (process_directory 10 ["R"%string] (Some ["O"%string]) sample_fs))
    = Done tt /\
  fst (fst (process_directory 10 ["R"%string] None blocked_fs)) = Done tt.
Proof. vm_compute. repeat split; reflexivity. Qed.

Lemma scanned_count_includes_unreadable_witness :
  process_file ["R"%string] None ["R"%string] "c.cs" (2, 1) sample_fs =
  (Done (3, 1), sample_fs,
   [EvRead ["R"; "c.cs"]%string (inl PermissionError);
    EvPrint (Failed_to_read ["R"; "c.cs"]%string PermissionError)]) /\
  (exists tr0 n,
    snd (process_directory 10 ["R"%string] None sample_fs) =
    tr0 ++ [EvPrint (Total_found (count_cs (walked_files tr0)));
            EvPrint (Comments_removed n)] /\
    count_events is_summary tr0 = 0 /\
    count_cs (walked_files tr0) = count_events is_read tr0 /\
    count_events is_read tr0 =
    count_events is_processed tr0 + count_events is_failed_read tr0) /\
  1 <= count_events is_scan
         (snd (process_directory 1 ["R"%string] None sample_fs)).
Proof.
  split; [|split].
  - apply (proj1 (@scanned_count_includes_unreadable Fs.t fs_os)
             ["R"%string] None ["R"%string] "c.cs"%string (2, 1) sample_fs
             PermissionError).
    + vm_compute. reflexivity.
    + vm_compute. reflexivity.
  - apply (proj1 (proj2 (@scanned_count_includes_unreadable Fs.t fs_os))
             10 ["R"%string] None sample_fs
             (snd (fst (process_directory 10 ["R"%string] None sample_fs)))).
    + vm_compute. reflexivity.
    + vm_compute. reflexivity.
  - apply (proj2 (proj2 (@scanned_count_includes_unreadable Fs.t fs_os))
             1 ["R"%string] None sample_fs
             (snd (fst (process_directory 1 ["R"%string] None sample_fs)))).
    vm_compute. reflexivity.
Defined.

Lemma changed_count_ignores_write_failure_witness :
  process_file ["R"%string] None ["R"%string] "d.cs" (3, 1) sample_fs =
  (Done (4, 2), sample_fs,
   [EvRead ["R"; "d.cs"]%string (inr (txt "d(); /* x */"));
    EvWrite ["R"; "d.cs"]%string (txt "d(); ") (Some PermissionError);
    EvPrint (Failed_to_write ["R"; "d.cs"]%string PermissionError);
    EvPrint (Processed ["R"; "d.cs"]%string)]) /\
  process_file ["R"%string] (Some ["O"%string]) ["R"%string] "d.cs" (3, 1)
    locked_fs =
  (Done (4, 2), locked_fs,
   [EvRead ["R"; "d.cs"]%string (inr (txt "d(); /* x */"));
    EvMakedirs ["O"%string] None;
    EvWrite ["O"; "d.cs"]%string (txt "d(); ") (Some PermissionError);
    EvPrint (Failed_to_write ["O"; "d.cs"]%string PermissionError);
    EvPrint (Processed ["R"; "d.cs"]%string)]) /\
  (exists tr0 n,
    snd (process_directory 10 ["R"%string] None sample_fs) =
    tr0 ++ [EvPrint (Total_found n);
            EvPrint (Comments_removed (count_events is_changed_read tr0))] /\
    count_events is_summary tr0 = 0) /\
  1 <= count_events is_scan
         (snd (process_directory 1 ["R"%string] (Some ["O"%string])
                 sample_fs)).
Proof.
  split; [|split; [|split]].
  - apply (proj1 (@changed_count_ignores_write_failure Fs.t fs_os)
             ["R"%string] ["R"%string] "d.cs"%string (3, 1) sample_fs
             sample_fs (txt "d(); /* x */") PermissionError).
    + vm_compute. reflexivity.
    + vm_compute. reflexivity.
    + vm_compute. discriminate.
    + vm_compute. reflexivity.
  - apply (proj1 (proj2 (@changed_count_ignores_write_failure Fs.t fs_os))
             ["R"%string] ["O"%string] ["R"%string] "d.cs"%string (3, 1)
             locked_fs locked_fs locked_fs (txt "d(); /* x */")
             PermissionError).
    + vm_compute. reflexivity.
    + vm_compute. reflexivity.
    + vm_compute. discriminate.
    + vm_compute. reflexivity.
    + vm_compute. reflexivity.
  - apply (proj1 (proj2 (proj2
             (@changed_count_ignores_write_failure Fs.t fs_os)))
             10 ["R"%string] None sample_fs
             (snd (fst (process_directory 10 ["R"%string] None sample_fs)))).
    + vm_compute. reflexivity.
    + vm_compute. reflexivity.
  - apply (proj2 (proj2 (proj2
             (@changed_count_ignores_write_failure Fs.t fs_os)))
             1 ["R"%string] (Some ["O"%string]) sample_fs
             (snd (fst (process_directory 1 ["R"%string]
                          (Some ["O"%string]) sample_fs)))).
    vm_compute. reflexivity.
Defined.

(** ** Further runs on the small file system *)

Lemma mirrored_file_path_witness :
  process_file ["R"%string] (Some ["O"%string])
    (["R"%string] ++ ["sub"%string]) "F.cs" (0, 0) sample_fs =
  (Done (1, 1),
   sample_fs ++
   [(["O"; "sub"]%string, Fs.Dir);
    (["O"; "sub"; "F.cs"]%string, Fs.File (inr (txt "f();")) true)],
   [EvRead ["R"; "sub"; "F.cs"]%string (inr (txt "/* f */f();"));
    EvMakedirs ["O"; "sub"]%string None;
    EvWrite ["O"; "sub"; "F.cs"]%string (txt "f();") None;
    EvPrint (Processed ["R"; "sub"; "F.cs"]%string)]) /\
  process_file ["R"%string] (Some ["O"%string]) ["R"%string] "a.cs" (0, 0)
    sample_fs =
  (Done (1, 1),
   sample_fs ++
   [(["O"; "a.cs"]%string, Fs.File (inr (txt "a(); ")) true)],
   [EvRead ["R"; "a.cs"]%string (inr (txt "a(); // note"));
    EvMakedirs ["O"%string] None;
    EvWrite ["O"; "a.cs"]%string (txt "a(); ") None;
    EvPrint (Processed ["R"; "a.cs"]%string)]).
Proof.
  split.
  - apply (proj1 (@mirrored_file_path Fs.t fs_os)
             ["R"%string] ["O"%string] ["sub"%string] "F.cs"%string (0, 0)
             sample_fs (sample_fs ++ [(["O"; "sub"]%string, Fs.Dir)])
             (sample_fs ++
              [(["O"; "sub"]%string, Fs.Dir);
               (["O"; "sub"; "F.cs"]%string,
                Fs.File (inr (txt "f();")) true)])
             (txt "/* f */f();") None).
    + vm_compute. reflexivity.
    + vm_compute. reflexivity.
    + vm_compute. discriminate.
    + vm_compute. reflexivity.
    + vm_compute. reflexivity.
  - apply (proj2 (@mirrored_file_path Fs.t fs_os)
             ["R"%string] ["O"%string] "a.cs"%string (0, 0)
             sample_fs sample_fs
             (sample_fs ++
              [(["O"; "a.cs"]%string, Fs.File (inr (txt "a(); ")) true)])
             (txt "a(); // note") None).
    + vm_compute. reflexivity.
    + vm_compute. reflexivity.
    + vm_compute. discriminate.
    + vm_compute. reflexivity.
    + vm_compute. reflexivity.
Defined.

Lemma reads_stay_in_tree_witness :
  exists sub f,
    ["R"; "sub"; "F.cs"]%string = ["R"%string] ++ sub ++ [f] /\
    endswith f ".cs" = true.
Proof.
  apply (proj2 (@reads_stay_in_tree Fs.t fs_os 10 ["R"%string] None sample_fs)
           ["R"; "sub"; "F.cs"]%string (inr (txt "/* f */f();"))).
  vm_compute. tauto.
Defined.


Lemma in_place_run_witness :
  let tr := snd (process_directory 10 ["R"%string] None sample_fs) in
  (exists content,
      In (EvRead ["R"; "d.cs"]%string (inr content)) (firstn 9 tr)) /\
  (exists l3,
      skipn 7 tr =
      EvPrint (Failed_to_read ["R"; "c.cs"]%string PermissionError) :: l3) /\
  (exists l3,
      skipn 10 tr =
      EvPrint (Failed_to_write ["R"; "d.cs"]%string PermissionError) :: l3).
Proof.
  intros tr.
  pose proof (@in_place_run Fs.t fs_os 10 ["R"%string] sample_fs)
    as (_ & Hwrite & Hread & Hfail).
  fold tr in Hwrite, Hread, Hfail.
  split; [|split].
  - apply (Hwrite (firstn 9 tr) ["R"; "d.cs"]%string (txt "d(); ")
             (Some PermissionError) (skipn 10 tr)).
    vm_compute. reflexivity.
  - apply (Hread (firstn 6 tr) ["R"; "c.cs"]%string PermissionError
             (skipn 7 tr)).
    vm_compute. reflexivity.
  - apply (Hfail (firstn 9 tr) ["R"; "d.cs"]%string (txt "d(); ")
             PermissionError (skipn 10 tr)).
    vm_compute. reflexivity.
Defined.

Lemma summary_only_after_walk_witness :
  process_directory 10 ["Q"%string] (Some ["O"%string]) sample_fs =
  (Done tt, sample_fs, [EvPrint (Directory_not_found ["Q"%string])]).
Proof.
  apply (proj1 (@summary_only_after_walk Fs.t fs_os)
           10 ["Q"%string] (Some ["O"%string]) sample_fs).
  vm_compute. reflexivity.
Defined.

Lemma changed_at_most_found_witness :
  exists tr0 n m,
    snd (process_directory 10 ["R"%string] None sample_fs) =
    tr0 ++ [EvPrint (Total_found n); EvPrint (Comments_removed m)] /\
    m <= n.
Proof.
  apply (@changed_at_most_found Fs.t fs_os 10 ["R"%string] None sample_fs
           (snd (fst (process_directory 10 ["R"%string] None sample_fs)))).
  - vm_compute. reflexivity.
  - vm_compute. reflexivity.
Defined.

Lemma main_prepares_output_witness :
  main 10 ["R"%string] (Some ["R"; "a.cs"]%string) sample_fs =
  (Raised FileExistsError, sample_fs,
   [EvMakedirs ["R"; "a.cs"]%string (Some FileExistsError)]) /\
  main 10 ["Q"%string] (Some ["O"; "new"]%string) sample_fs =
  (Done tt, sample_fs ++ [(["O"; "new"]%string, Fs.Dir)],
   [EvMakedirs ["O"; "new"]%string None;
    EvPrint (Directory_not_found ["Q"%string])]).
Proof.
  split.
  - apply (proj1 (@main_prepares_output Fs.t fs_os)
             10 ["R"%string] ["R"; "a.cs"]%string sample_fs sample_fs
             FileExistsError).
    vm_compute. reflexivity.
  - apply (proj1 (proj2 (proj2 (@main_prepares_output Fs.t fs_os)))
             10 ["Q"%string] ["O"; "new"]%string sample_fs
             (sample_fs ++ [(["O"; "new"]%string, Fs.Dir)])).
    + vm_compute. reflexivity.
    + vm_compute. reflexivity.
Defined.
